(** * story-contract-tool: the argument coercer, the ABI selector, the
      result formatter and the command-line driver of [main.go].

    The program is one Go file.  Its own code is embedded below as Rocq
    functions; the library calls it makes ([strings], [math/big],
    go-ethereum's [common]) are modelled in the modules that open the file,
    after the documented behaviour of those packages on byte strings. *)

From Stdlib Require Import ZArith List String Ascii Bool Lia.
From Equations Require Import Equations.
Import ListNotations.

Local Open Scope string_scope.
Local Open Scope Z_scope.

(** ** Characters and strings as Go sees them: sequences of bytes *)

Definition code (c : ascii) : Z := Z.of_N (N_of_ascii c).

Definition chr (n : Z) : ascii := ascii_of_N (Z.to_N n).

Definition between (lo hi c : ascii) : bool :=
  (code lo <=? code c) && (code c <=? code hi).

(** [s[n:]] for [n <= len(s)]. *)
Fixpoint drop (n : nat) (s : string) : string :=
  match n, s with
  | O, _ => s
  | S k, String _ r => drop k r
  | S _, EmptyString => EmptyString
  end.

(** [s[i]] for [i < len(s)]. *)
Definition charAt (s : string) (i : nat) : ascii :=
  match String.get i s with
  | Some c => c
  | None => zero
  end.

(** [strings.Repeat(string(c), n)]. *)
Fixpoint repeatChar (c : ascii) (n : nat) : string :=
  match n with
  | O => EmptyString
  | S k => String c (repeatChar c k)
  end.

Fixpoint allChars (p : ascii -> bool) (s : string) : bool :=
  match s with
  | EmptyString => true
  | String c r => p c && allChars p r
  end.

(** ** Package [unicode/utf8] *)

Module Utf8.

Definition RuneError : Z := 65533.
Definition RuneSelf : Z := 128.
Definition UTFMax : nat := 4.

(** What the tables [first] and [acceptRanges] say of a leading byte: an
    ASCII byte, an invalid one, or the size of the sequence together with
    the range its second byte must lie in. *)
Inductive lead : Type :=
| LeadASCII
| LeadInvalid
| LeadOf (size : nat) (lo hi : Z).

Definition first (b : Z) : lead :=
  if b <? 128 then LeadASCII                (* 0x00-0x7F: as *)
  else if b <? 194 then LeadInvalid         (* 0x80-0xC1: xx *)
  else if b <=? 223 then LeadOf 2 128 191   (* 0xC2-0xDF: s1 *)
  else if b =? 224 then LeadOf 3 160 191    (* 0xE0: s2 *)
  else if b <=? 236 then LeadOf 3 128 191   (* 0xE1-0xEC: s3 *)
  else if b =? 237 then LeadOf 3 128 159    (* 0xED: s4 *)
  else if b <=? 239 then LeadOf 3 128 191   (* 0xEE-0xEF: s3 *)
  else if b =? 240 then LeadOf 4 144 191    (* 0xF0: s5 *)
  else if b <=? 243 then LeadOf 4 128 191   (* 0xF1-0xF3: s6 *)
  else if b =? 244 then LeadOf 4 128 143    (* 0xF4: s7 *)
  else LeadInvalid.                         (* 0xF5-0xFF: xx *)

(** [utf8.DecodeRuneInString]: the first rune of [s] and its width in
    bytes; [(RuneError, 1)] where the encoding is not valid. *)
Definition DecodeRuneInString (s : string) : Z * nat :=
  match s with
  | EmptyString => (RuneError, 0%nat)
  | String c0 _ =>
      let s0 := code c0 in
      match first s0 with
      | LeadASCII => (s0, 1%nat)
      | LeadInvalid => (RuneError, 1%nat)
      | LeadOf sz lo hi =>
          if Nat.ltb (String.length s) sz then (RuneError, 1%nat)
          else
            let s1 := code (charAt s 1) in
            if (s1 <? lo) || (hi <? s1) then (RuneError, 1%nat)
            else if Nat.leb sz 2 then
              (Z.lor (Z.shiftl (Z.land s0 31) 6) (Z.land s1 63), 2%nat)
            else
              let s2 := code (charAt s 2) in
              if (s2 <? 128) || (191 <? s2) then (RuneError, 1%nat)
              else if Nat.leb sz 3 then
                (Z.lor (Z.lor (Z.shiftl (Z.land s0 15) 12)
                              (Z.shiftl (Z.land s1 63) 6))
                       (Z.land s2 63), 3%nat)
              else
                let s3 := code (charAt s 3) in
                if (s3 <? 128) || (191 <? s3) then (RuneError, 1%nat)
                else
                  (Z.lor (Z.lor (Z.lor (Z.shiftl (Z.land s0 7) 18)
                                       (Z.shiftl (Z.land s1 63) 12))
                                (Z.shiftl (Z.land s2 63) 6))
                         (Z.land s3 63), 4%nat)
      end
  end.

(** [utf8.RuneStart]: the byte is no continuation byte. *)
Definition RuneStart (b : Z) : bool := negb (Z.land b 192 =? 128).

(** The loop of [DecodeLastRuneInString] that steps back to where the last
    rune starts: [for start--; start >= lim; start--], left at the first
    byte that starts a rune.  It runs at most three times, [start] going
    from [end-2] down to [lim >= end-4]. *)
Fixpoint stepBack (n : nat) (start lim : Z) (s : string) : Z :=
  match n with
  | O => start
  | S k =>
      if start >=? lim then
        if RuneStart (code (charAt s (Z.to_nat start))) then start
        else stepBack k (start - 1) lim s
      else start
  end.

(** [utf8.DecodeLastRuneInString]: the last rune of [s] and its width. *)
Definition DecodeLastRuneInString (s : string) : Z * nat :=
  let end_ := String.length s in
  if Nat.eqb end_ 0 then (RuneError, 0%nat)
  else
    let r := code (charAt s (end_ - 1)) in
    if r <? RuneSelf then (r, 1%nat)
    else
      let lim := Z.max (Z.of_nat end_ - Z.of_nat UTFMax) 0 in
      let start := stepBack UTFMax (Z.of_nat end_ - 2) lim s in
      let start := Z.to_nat (if start <? 0 then 0 else start) in
      let '(r, size) := DecodeRuneInString (drop start s) in
      if negb (Nat.eqb (start + size) end_) then (RuneError, 1%nat)
      else (r, size).

End Utf8.

(** ** Package [unicode] *)

Module Unicode.

(** [unicode.IsSpace]: the white space of Latin-1, and beyond Latin-1 the
    ranges of the table [White_Space]. *)
Definition IsSpace (r : Z) : bool :=
  if r <=? 255 then
    (r =? 9) || (r =? 10) || (r =? 11) || (r =? 12) || (r =? 13) ||
    (r =? 32) || (r =? 133) || (r =? 160)
  else
    (r =? 5760) ||                          (* U+1680 *)
    ((8192 <=? r) && (r <=? 8202)) ||       (* U+2000-U+200A *)
    ((8232 <=? r) && (r <=? 8233)) ||       (* U+2028-U+2029 *)
    (r =? 8239) ||                          (* U+202F *)
    (r =? 8287) ||                          (* U+205F *)
    (r =? 12288).                           (* U+3000 *)

End Unicode.

(** ** Package [strings] *)

Module Strings.

(** [strings.HasPrefix(s, prefix)]. *)
Definition HasPrefix (s pre : string) : bool := String.prefix pre s.

(** The table [asciiSpace] of package [strings]. *)
Definition asciiSpace (c : ascii) : bool :=
  let n := code c in
  (n =? 9) || (n =? 10) || (n =? 11) || (n =? 12) || (n =? 13) || (n =? 32).

(** [for i, r := range s] in [indexFunc], from byte [i] on; [skip] bytes of
    the rune decoded last are still to be passed over.  [None] is Go's -1. *)
Fixpoint indexFuncFrom (f : Z -> bool) (truth : bool) (i skip : nat)
    (s : string) : option nat :=
  match s with
  | EmptyString => None
  | String _ r =>
      match skip with
      | S k => indexFuncFrom f truth (S i) k r
      | O =>
          let '(rune, size) := Utf8.DecodeRuneInString s in
          if Bool.eqb (f rune) truth then Some i
          else indexFuncFrom f truth (S i) (size - 1) r
      end
  end.

(** [indexFunc]: the index of the first rune [r] with [f(r) == truth]. *)
Definition indexFunc (s : string) (f : Z -> bool) (truth : bool) : option nat :=
  indexFuncFrom f truth 0 0 s.

(** The loop of [lastIndexFunc]: [for i := len(s); i > 0; ...].  Each round
    takes at least one byte off [i], so [fuel = i] rounds are enough. *)
Fixpoint lastIndexFuncFrom (f : Z -> bool) (truth : bool) (fuel i : nat)
    (s : string) : option nat :=
  match fuel with
  | O => None
  | S k =>
      if Nat.eqb i 0 then None
      else
        let '(r, size) := Utf8.DecodeLastRuneInString (substring 0 i s) in
        let i := (i - size)%nat in
        if Bool.eqb (f r) truth then Some i
        else lastIndexFuncFrom f truth k i s
  end.

(** [lastIndexFunc]: the index of the last rune [r] with [f(r) == truth]. *)
Definition lastIndexFunc (s : string) (f : Z -> bool) (truth : bool)
  : option nat :=
  lastIndexFuncFrom f truth (String.length s) (String.length s) s.

(** [strings.TrimLeftFunc]. *)
Definition TrimLeftFunc (s : string) (f : Z -> bool) : string :=
  match indexFunc s f false with
  | None => EmptyString
  | Some i => drop i s
  end.

(** [strings.TrimRightFunc]. *)
Definition TrimRightFunc (s : string) (f : Z -> bool) : string :=
  match lastIndexFunc s f false with
  | Some i =>
      if code (charAt s i) >=? Utf8.RuneSelf then
        let '(_, wid) := Utf8.DecodeRuneInString (drop i s) in
        substring 0 (i + wid) s
      else substring 0 (i + 1) s
  | None => substring 0 0 s
  end.

(** [strings.TrimFunc]. *)
Definition TrimFunc (s : string) (f : Z -> bool) : string :=
  TrimRightFunc (TrimLeftFunc s f) f.

(** The first loop of [TrimSpace], over the leading ASCII white space:
    [inl] is what [TrimSpace] returns when the loop meets a byte that is
    not ASCII, [inr] is [s[start:]] when the loop ends. *)
Fixpoint trimStart (s : string) : string + string :=
  match s with
  | EmptyString => inr EmptyString
  | String c r =>
      if code c >=? Utf8.RuneSelf then inl (TrimFunc s Unicode.IsSpace)
      else if asciiSpace c then trimStart r
      else inr s
  end.

(** The second loop of [TrimSpace], over the trailing ASCII white space of
    [t = s[start:]], with [stop] counted from [start]. *)
Fixpoint trimStop (stop : nat) (t : string) : string :=
  match stop with
  | O => substring 0 0 t
  | S k =>
      if code (charAt t k) >=? Utf8.RuneSelf then
        TrimRightFunc (substring 0 stop t) Unicode.IsSpace
      else if asciiSpace (charAt t k) then trimStop k t
      else substring 0 stop t
  end.

(** [strings.TrimSpace]: [s] without its leading and trailing white space,
    as Unicode defines it: the ASCII loops first, and [TrimFunc] or
    [TrimRightFunc] with [unicode.IsSpace] from the first byte that is not
    ASCII. *)
Definition TrimSpace (s : string) : string :=
  match trimStart s with
  | inl r => r
  | inr t => trimStop (String.length t) t
  end.

(** [strings.Split(s, sep)] for a one-byte separator: the pieces between
    the separators, one more piece than there are separators. *)
Fixpoint Split (s : string) (sep : ascii) : list string :=
  match s with
  | EmptyString => [EmptyString]
  | String c r =>
      if Ascii.eqb c sep then EmptyString :: Split r sep
      else match Split r sep with
           | piece :: rest => String c piece :: rest
           | [] => [String c EmptyString]
           end
  end.

(** [strings.Replace(s, old, new, 1)] for a non-empty [old]: the first
    occurrence of [old] is replaced, a string without one is returned as it
    is. *)
Fixpoint Replace1 (s old new : string) : string :=
  if String.prefix old s then new ++ drop (String.length old) s
  else match s with
       | EmptyString => EmptyString
       | String c r => String c (Replace1 r old new)
       end.

(** [strings.Contains(s, substr)]. *)
Fixpoint Contains (s sub : string) : bool :=
  String.prefix sub s ||
  match s with
  | EmptyString => false
  | String _ r => Contains r sub
  end.

End Strings.

(** ** Package [math/big]: [*big.Int] as [Z] *)

Module Big.

Definition MaxBase : Z := 62.

(** The digit value [d1] that [nat.scan] gives a byte, for a base of at
    most 36 (letters of both cases count alike). *)
Definition digitVal (ch : ascii) : Z :=
  if between "0" "9" ch then code ch - code "0"
  else if between "a" "z" ch then code ch - code "a" + 10
  else if between "A" "Z" ch then code ch - code "A" + 10
  else MaxBase + 1.

(** The digit loop of [nat.scan] for a base other than 0: it stops at the
    first byte that is not a digit of the base and leaves it unread. *)
Fixpoint natScan (base : Z) (s : string) (z : Z) (count : nat)
  : Z * nat * string :=
  match s with
  | EmptyString => (z, count, EmptyString)
  | String ch r =>
      if digitVal ch >=? base then (z, count, s)
      else natScan base r (z * base + digitVal ch) (S count)
  end.

(** [new(big.Int).SetString(s, base)] for [base] in 2..36: an optional
    sign, at least one digit, and nothing after the digits. *)
Definition SetString (s : string) (base : Z) : option Z :=
  match s with
  | EmptyString => None
  | String ch r =>
      let '(neg, body) :=
        if Ascii.eqb ch "-" then (true, r)
        else if Ascii.eqb ch "+" then (false, r)
        else (false, s) in
      match natScan base body 0 0 with
      | (_, O, _) => None
      | (z, S _, EmptyString) => Some (if neg then - z else z)
      | (_, S _, String _ _) => None
      end
  end.

Definition digitChar (d : Z) : ascii := chr (code "0" + d).

Fixpoint utoaLoop (fuel : nat) (x : Z) (acc : string) : string :=
  match fuel with
  | O => acc
  | S f =>
      if x =? 0 then acc
      else utoaLoop f (x / 10) (String (digitChar (x mod 10)) acc)
  end.

(** The decimal digits of a natural number, [nat.utoa(10)]. *)
Definition utoa (x : Z) : string :=
  if x =? 0 then "0" else utoaLoop (S (Z.to_nat (Z.log2 x))) x "".

(** [x.String()]. *)
Definition String_ (x : Z) : string :=
  if x <? 0 then String "-" (utoa (- x)) else utoa x.

(** [x.Cmp(y)]: -1, 0 or 1. *)
Definition Cmp (x y : Z) : Z :=
  match x ?= y with Lt => -1 | Eq => 0 | Gt => 1 end.

(** [Div] and [Mod] are Go's Euclidean division and modulus. *)
Definition Div (x y : Z) : Z := Z.sgn y * (x / Z.abs y).
Definition Mod (x y : Z) : Z := x mod Z.abs y.

(** [z.Exp(x, y, nil)] for [y >= 0]. *)
Definition Exp (x y : Z) : Z := x ^ y.

End Big.

(** ** Packages [encoding/hex] and go-ethereum's [common] *)

Module Common.

Definition AddressLength : nat := 20.

(** [common.Address], a [[20]byte]: its bytes, each in 0..255. *)
Definition Address : Type := list Z.

(** [has0xPrefix]: the string begins with 0x or 0X. *)
Definition has0xPrefix (str : string) : bool :=
  match str with
  | String c0 (String c1 _) =>
      Ascii.eqb c0 "0" && (Ascii.eqb c1 "x" || Ascii.eqb c1 "X")
  | _ => false
  end.

Definition isHexCharacter (c : ascii) : bool :=
  between "0" "9" c || between "a" "f" c || between "A" "F" c.

Definition isHex (str : string) : bool :=
  if negb (Nat.eqb (Nat.modulo (String.length str) 2) 0) then false
  else allChars isHexCharacter str.

Definition IsHexAddress (s : string) : bool :=
  let s := if has0xPrefix s then drop 2 s else s in
  Nat.eqb (String.length s) (2 * AddressLength) && isHex s.

(** [reverseHexTable] of [encoding/hex]: 255 for a byte that is no hex
    digit. *)
Definition fromHexChar (c : ascii) : Z :=
  if between "0" "9" c then code c - code "0"
  else if between "a" "f" c then code c - code "a" + 10
  else if between "A" "F" c then code c - code "A" + 10
  else 255.

(** [hex.DecodeString], as [Hex2Bytes] uses it: the error is dropped and
    the bytes decoded before it are returned. *)
Fixpoint Hex2Bytes (str : string) : list Z :=
  match str with
  | String p (String q r) =>
      if fromHexChar p >? 15 then []
      else if fromHexChar q >? 15 then []
      else (Z.lor (Z.shiftl (fromHexChar p) 4) (fromHexChar q)) :: Hex2Bytes r
  | _ => []
  end.

Definition FromHex (s : string) : list Z :=
  let s := if has0xPrefix s then drop 2 s else s in
  let s := if Nat.eqb (Nat.modulo (String.length s) 2) 1 then String "0" s else s in
  Hex2Bytes s.

(** [BytesToAddress]: the last 20 bytes, left-padded with zero bytes. *)
Definition BytesToAddress (b : list Z) : Address :=
  let b := if Nat.ltb AddressLength (List.length b)
           then skipn (List.length b - AddressLength) b else b in
  (repeat 0 (AddressLength - List.length b) ++ b)%list.

Definition HexToAddress (s : string) : Address := BytesToAddress (FromHex s).

Definition hextable (d : Z) : ascii :=
  if d <? 10 then chr (code "0" + d) else chr (code "a" + (d - 10)).

(** [hex.EncodeToString], also what [%x] prints for a byte slice. *)
Fixpoint EncodeToString (b : list Z) : string :=
  match b with
  | [] => EmptyString
  | v :: r =>
      String (hextable (Z.shiftr v 4))
        (String (hextable (Z.land v 15)) (EncodeToString r))
  end.

End Common.

(** ** Package [main] *)

Import Strings Common.

(** A typed argument, as the coercer hands it to the contract call. *)
Inductive Arg : Type :=
| ArgAddress (a : Address)
| ArgInt (z : Z)
| ArgString (s : string).

(** A decoded return value, by the runtime types the formatter switches on;
    [VOther] carries what [%v] and [%T] print for a value of any other
    type. *)
Inductive Value : Type :=
| VBigInt (v : Z)
| VString (s : string)
| VBytes (b : list Z)
| VAddress (a : Address)
| VBool (b : bool)
| VOther (repr typeName : string).

Inductive result (A : Type) : Type :=
| Ok (a : A)
| Err (msg : string).
Arguments Ok {A} a.
Arguments Err {A} msg.

(** What a run does that can be observed from outside. *)
Inductive event : Type :=
| Stdout (text : string)
| Stderr (text : string)
| LogLine (text : string)
| DialRPC (url : string)
| FileRead (path : string)
| EthCall (to : Address) (method : string) (args : list Arg).

(** How a run ends early: [os.Exit(code)], or a run-time panic. *)
Inductive halt : Type :=
| Exit (status : Z)
| Panic.

(** The external collaborators of the program, consumed as black boxes. *)
Record World : Type := {
  Args0 : string;                         (* os.Args[0] *)
  PrintDefaults : string;                 (* the text flag.PrintDefaults writes *)
  Dial : string -> result unit;           (* ethclient.Dial *)
  ReadFile : string -> result string;     (* os.ReadFile *)
  abiJSON : string -> result unit;        (* abi.JSON *)
  Call : Address -> string -> string -> list Arg -> result (list Value);
                                          (* BoundContract.Call *)
  Hex : Address -> string                 (* Address.Hex, the checksummed form *)
}.

(** *** A small monad: the events so far, and a value or an early end *)

Definition M (A : Type) : Type := list event * (A + halt).

Definition ret {A} (a : A) : M A := ([], inl a).

Definition bind {A B} (m : M A) (k : A -> M B) : M B :=
  match m with
  | (t, inl a) => let '(t', r) := k a in ((t ++ t')%list, r)
  | (t, inr h) => (t, inr h)
  end.

Notation "x <- m ;; k" := (bind m (fun x => k))
  (at level 61, m at next level, right associativity).
Notation "m ;; k" := (bind m (fun _ => k))
  (at level 61, right associativity).

Definition emit (e : event) : M unit := ([e], inl tt).
Definition osExit {A} (status : Z) : M A := ([], inr (Exit status)).
Definition panic {A} : M A := ([], inr Panic).

Definition Printf (text : string) : M unit := emit (Stdout text).
Definition Println (text : string) : M unit := emit (Stdout (text ++ String "010" "")).
Definition Fprintf_Stderr (text : string) : M unit := emit (Stderr text).
(** [log.Fatalf]: the message goes to the standard logger, then [os.Exit(1)]. *)
Definition Fatalf {A} (text : string) : M A := emit (LogLine text) ;; osExit 1.

Definition when (c : bool) (m : M unit) : M unit := if c then m else ret tt.

(** [%d] of an [int]. *)
Definition fmt_d (n : nat) : string := Big.String_ (Z.of_nat n).
(** [%t] of a [bool]. *)
Definition fmt_t (b : bool) : string := if b then "true" else "false".

Definition LF : string := String "010" "".
Definition TAB : string := String "009" "".

(** The ABI literals are raw strings full of double quotes; below they are
    written with ['] in place of each one, and [dq] puts the double quotes
    back.  None of the three literals contains a [']. *)
Fixpoint dq (s : string) : string :=
  match s with
  | EmptyString => EmptyString
  | String c r => String (if Ascii.eqb c "'" then "034"%char else c) (dq r)
  end.

Definition ERC20ABI : string :=
  "[" ++ LF ++
  TAB ++ TAB ++ dq "{'constant':true,'inputs':[],'name':'name','outputs':[{'name':'','type':'string'}],'type':'function'}," ++ LF ++
  TAB ++ TAB ++ dq "{'constant':true,'inputs':[],'name':'symbol','outputs':[{'name':'','type':'string'}],'type':'function'}," ++ LF ++
  TAB ++ TAB ++ dq "{'constant':true,'inputs':[],'name':'decimals','outputs':[{'name':'','type':'uint8'}],'type':'function'}," ++ LF ++
  TAB ++ TAB ++ dq "{'constant':true,'inputs':[],'name':'totalSupply','outputs':[{'name':'','type':'uint256'}],'type':'function'}," ++ LF ++
  TAB ++ TAB ++ dq "{'constant':true,'inputs':[{'name':'_owner','type':'address'}],'name':'balanceOf','outputs':[{'name':'balance','type':'uint256'}],'type':'function'}" ++ LF ++
  TAB ++ "]".

Definition SimpleStorageABI : string :=
  "[" ++ LF ++
  TAB ++ TAB ++ "{" ++ LF ++
  TAB ++ TAB ++ TAB ++ dq "'inputs': []," ++ LF ++
  TAB ++ TAB ++ TAB ++ dq "'name': 'retrieve'," ++ LF ++
  TAB ++ TAB ++ TAB ++ dq "'outputs': [{'internalType': 'uint256', 'name': '', 'type': 'uint256'}]," ++ LF ++
  TAB ++ TAB ++ TAB ++ dq "'stateMutability': 'view'," ++ LF ++
  TAB ++ TAB ++ TAB ++ dq "'type': 'function'" ++ LF ++
  TAB ++ TAB ++ "}," ++ LF ++
  TAB ++ TAB ++ "{" ++ LF ++
  TAB ++ TAB ++ TAB ++ dq "'inputs': [{'internalType': 'uint256', 'name': 'num', 'type': 'uint256'}]," ++ LF ++
  TAB ++ TAB ++ TAB ++ dq "'name': 'store'," ++ LF ++
  TAB ++ TAB ++ TAB ++ dq "'outputs': []," ++ LF ++
  TAB ++ TAB ++ TAB ++ dq "'stateMutability': 'nonpayable'," ++ LF ++
  TAB ++ TAB ++ TAB ++ dq "'type': 'function'" ++ LF ++
  TAB ++ TAB ++ "}" ++ LF ++
  TAB ++ "]".

Definition GenericFallbackABI : string :=
  "[" ++ LF ++
  TAB ++ TAB ++ "{" ++ LF ++
  TAB ++ TAB ++ TAB ++ dq "'inputs': []," ++ LF ++
  TAB ++ TAB ++ TAB ++ dq "'name': 'FUNCTION_PLACEHOLDER'," ++ LF ++
  TAB ++ TAB ++ TAB ++ dq "'outputs': [{'internalType': 'uint256', 'name': '', 'type': 'uint256'}]," ++ LF ++
  TAB ++ TAB ++ TAB ++ dq "'stateMutability': 'view'," ++ LF ++
  TAB ++ TAB ++ TAB ++ dq "'type': 'function'" ++ LF ++
  TAB ++ TAB ++ "}" ++ LF ++
  TAB ++ "]".

Fixpoint stringInSlice (str : string) (list : list string) : bool :=
  match list with
  | [] => false
  | v :: rest => if String.eqb v str then true else stringInSlice str rest
  end.

Definition getContractABI (contractType : string) : string :=
  if String.eqb contractType "erc20" then ERC20ABI
  else if String.eqb contractType "storage" then SimpleStorageABI
  else GenericFallbackABI.

(** The [else] branch of the ABI choice in [main]: no ABI file was given. *)
Definition predefinedABI (contractType functionName : string) : string :=
  let abiString := getContractABI contractType in
  if String.eqb contractType "generic" || String.eqb contractType ""
  then Replace1 abiString "FUNCTION_PLACEHOLDER" functionName
  else abiString.

(** [GenericContract]: the bound contract (its address; the parsed ABI is
    the ABI string, accepted by [abi.JSON]) and the ABI string. *)
Record GenericContract : Type := {
  contract : Address;
  abi : string
}.

Definition NewGenericContract (w : World) (address : Address) (abiString : string)
  : result GenericContract :=
  match abiJSON w abiString with
  | Err err => Err ("failed to parse ABI: " ++ err)
  | Ok _ => Ok {| contract := address; abi := abiString |}
  end.

Definition CallViewFunction (w : World) (gc : GenericContract)
    (functionName : string) (args : list Arg) : M (result (list Value)) :=
  emit (EthCall (contract gc) functionName args) ;;
  ret (Call w (contract gc) (abi gc) functionName args).

(** *** The argument coercer (the loop that fills [functionArgs]) *)

(** The body of the loop, after [arg = strings.TrimSpace(arg)]. *)
Definition coerceArg (arg : string) : M Arg :=
  if IsHexAddress arg then ret (ArgAddress (HexToAddress arg))
  else if HasPrefix arg "0x" then
    match Big.SetString (drop 2 arg) 16 with
    | None => Fatalf ("Failed to parse hex argument: " ++ arg)
    | Some bigInt => ret (ArgInt bigInt)
    end
  else
    match Big.SetString arg 10 with
    | Some bigInt => ret (ArgInt bigInt)
    | None => ret (ArgString arg)
    end.

Fixpoint coerceLoop (argsList : list string) (functionArgs : list Arg)
  : M (list Arg) :=
  match argsList with
  | [] => ret functionArgs
  | arg :: rest =>
      let arg := TrimSpace arg in
      v <- coerceArg arg ;;
      coerceLoop rest (functionArgs ++ [v])%list
  end.

Definition prepareArgs (args : string) : M (list Arg) :=
  if negb (String.eqb args "") then coerceLoop (Split args ",") []
  else ret [].

(** *** The result formatter (the loop over [results]) *)

Definition exp18 : Z := Big.Exp 10 18.

(** [for len(fracStr) < 18 { fracStr = "0" + fracStr }] *)
Equations padLoop (fracStr : string) : string
  by wf (18 - String.length fracStr)%nat lt :=
  padLoop fracStr with lt_dec (String.length fracStr) 18 => {
    | left _ => padLoop ("0" ++ fracStr)
    | right _ => fracStr }.
Next Obligation.
  change (18 - S (String.length fracStr) < 18 - String.length fracStr)%nat.
  lia.
Qed.

(** [for len(fracStr) > 0 && fracStr[len(fracStr)-1] == '0'
       { fracStr = fracStr[:len(fracStr)-1] }];
    an index out of range would panic ([None]). *)
Equations trimLoop (fracStr : string) : option string
  by wf (String.length fracStr) lt :=
  trimLoop fracStr with Nat.eq_dec (String.length fracStr) 0 => {
    | left _ => Some fracStr
    | right _ with String.get (String.length fracStr - 1) fracStr => {
        | None => None
        | Some c with Ascii.eqb c "0" => {
            | true => trimLoop (substring 0 (String.length fracStr - 1) fracStr)
            | false => Some fracStr } } }.
Next Obligation.
  assert (H : forall k s, (String.length (substring 0 k s) <= k)%nat).
  { intros k; induction k as [|k IH]; intros s; destruct s; simpl; try lia.
    specialize (IH s). lia. }
  specialize (H (String.length fracStr - 1)%nat fracStr). lia.
Qed.

(** The body of the loop over [results]. *)
Definition formatResult (w : World) (convert : bool) (i : nat) (result : Value)
  : M unit :=
  Printf ("Result[" ++ fmt_d i ++ "]: ") ;;
  match result with
  | VBigInt v =>
      Printf (Big.String_ v ++ " (big.Int)" ++ LF) ;;
      when (convert && (Big.Cmp v 0 >? 0))
        (let intPart := Big.Div v exp18 in
         let fracPart := Big.Mod v exp18 in
         let fracStr := Big.String_ fracPart in
         let fracStr := padLoop fracStr in
         match trimLoop fracStr with
         | None => panic
         | Some fracStr =>
             if Nat.ltb 0 (String.length fracStr)
             then Printf ("           = " ++ Big.String_ intPart ++ "." ++ fracStr
                          ++ " (decimal)" ++ LF)
             else Printf ("           = " ++ Big.String_ intPart
                          ++ " (decimal)" ++ LF)
         end)
  | VString v => Printf (v ++ " (string)" ++ LF)
  | VBytes v => Printf ("0x" ++ EncodeToString v ++ " (bytes)" ++ LF)
  | VAddress v => Printf (Hex w v ++ " (address)" ++ LF)
  | VBool v => Printf (fmt_t v ++ " (bool)" ++ LF)
  | VOther repr typeName => Printf (repr ++ " (type: " ++ typeName ++ ")" ++ LF)
  end.

(** [for i, result := range results { ... }], from index [i] on. *)
Fixpoint formatLoop (w : World) (convert : bool) (i : nat) (results : list Value)
  : M unit :=
  match results with
  | [] => ret tt
  | result :: rest =>
      formatResult w convert i result ;;
      formatLoop w convert (S i) rest
  end.

Definition formatResults (w : World) (convert : bool) (results : list Value)
  : M unit :=
  formatLoop w convert 0 results.

(** *** The driver *)

(** The command-line flags after [flag.Parse()]. *)
Record Flags : Type := {
  contractAddr : string;
  functionName : string;
  rpcURL : string;
  contractType : string;
  abiFile : string;
  args : string;
  convert : bool;
  help : bool
}.

(** The defaults the flags are declared with. *)
Definition defaultFlags : Flags := {|
  contractAddr := "";
  functionName := "";
  rpcURL := "https://mainnet.infura.io/v3/YOUR_INFURA_PROJECT_ID";
  contractType := "generic";
  abiFile := "";
  args := "";
  convert := false;
  help := false
|}.

(** [flag.Usage], as [main] sets it. *)
Definition Usage (w : World) : M unit :=
  Fprintf_Stderr ("Usage: " ++ Args0 w ++ " -contract=0xContractAddress -function=functionName [-rpc=https://your-ethereum-node] [-type=erc20|storage|generic] [-abi=path/to/abi.json] [-args=arg1,arg2,...] [-convert]" ++ LF ++ LF) ;;
  Fprintf_Stderr ("Options:" ++ LF) ;;
  Fprintf_Stderr (PrintDefaults w) ;;
  Fprintf_Stderr (LF ++ "Examples:" ++ LF) ;;
  Fprintf_Stderr ("  Call a function without arguments:" ++ LF) ;;
  Fprintf_Stderr ("    " ++ Args0 w ++ " -contract=0x123... -function=totalSupply -type=erc20" ++ LF ++ LF) ;;
  Fprintf_Stderr ("  Call a function with an address argument:" ++ LF) ;;
  Fprintf_Stderr ("    " ++ Args0 w ++ " -contract=0x123... -function=balanceOf -type=erc20 -args=0x456..." ++ LF) ;;
  Fprintf_Stderr ("  Call a function and convert result to decimal:" ++ LF) ;;
  Fprintf_Stderr ("    " ++ Args0 w ++ " -contract=0x123... -function=balanceOf -type=erc20 -args=0x456... -convert" ++ LF).

Definition main (w : World) (f : Flags) : M unit :=
  when (help f) (Usage w ;; osExit 0) ;;
  when (String.eqb (contractAddr f) "")
    (Println "Error: Contract address is required" ;; Usage w ;; osExit 1) ;;
  when (String.eqb (functionName f) "")
    (Println "Error: Function name is required" ;; Usage w ;; osExit 1) ;;
  when (negb (IsHexAddress (contractAddr f)))
    (Printf ("Error: Invalid contract address format: " ++ contractAddr f ++ LF) ;;
     osExit 1) ;;
  emit (DialRPC (rpcURL f)) ;;
  match Dial w (rpcURL f) with
  | Err err => Fatalf ("Failed to connect to the Ethereum client: " ++ err)
  | Ok _ =>
  Printf ("Connected to Ethereum node at " ++ rpcURL f ++ LF) ;;
  let contractAddress := HexToAddress (contractAddr f) in
  Printf ("Using contract address: " ++ Hex w contractAddress ++ LF) ;;
  abiString <-
    (if negb (String.eqb (abiFile f) "") then
       emit (FileRead (abiFile f)) ;;
       match ReadFile w (abiFile f) with
       | Err err => Fatalf ("Failed to read ABI file: " ++ err)
       | Ok abiData => ret abiData
       end
     else ret (predefinedABI (contractType f) (functionName f))) ;;
  match NewGenericContract w contractAddress abiString with
  | Err err => Fatalf ("Failed to instantiate the contract: " ++ err)
  | Ok contract =>
  functionArgs <- prepareArgs (args f) ;;
  Printf ("Calling function '" ++ functionName f ++ "' with "
          ++ fmt_d (List.length functionArgs) ++ " arguments" ++ LF) ;;
  r <- CallViewFunction w contract (functionName f) functionArgs ;;
  match r with
  | Err err =>
      Fatalf ("Failed to call function '" ++ functionName f ++ "': " ++ err)
  | Ok results =>
  Println "Function returned successfully!" ;;
  formatResults w (convert f) results
  end end end.

(** ** What the specification speaks of, defined without the code *)

Module Spec.

(** A digit of the base, in either case of letter. *)
Definition isDigitOf (base : Z) (c : ascii) : bool := Big.digitVal c <? base.

(** The value of a digit string, position by position. *)
Fixpoint positional (base : Z) (s : string) : Z :=
  match s with
  | EmptyString => 0
  | String c r =>
      Big.digitVal c * base ^ Z.of_nat (String.length r) + positional base r
  end.

Definition negative (s : string) : bool := String.prefix "-" s.

(** The string behind an optional leading sign. *)
Definition unsignedPart (s : string) : string :=
  match s with
  | String c r => if Ascii.eqb c "-" || Ascii.eqb c "+" then r else s
  | EmptyString => EmptyString
  end.

(** An optional sign followed by at least one digit of the base. *)
Definition isNumeral (base : Z) (s : string) : bool :=
  negb (String.eqb (unsignedPart s) "") &&
  allChars (isDigitOf base) (unsignedPart s).

Definition numeralValue (base : Z) (s : string) : Z :=
  if negative s then - positional base (unsignedPart s)
  else positional base (unsignedPart s).

(** The integer a string denotes in the base, if it denotes one. *)
Definition parseNumeral (base : Z) (s : string) : option Z :=
  if isNumeral base s then Some (numeralValue base s) else None.

Definition oneOf (alphabet : string) (c : ascii) : bool :=
  existsb (Ascii.eqb c) (list_ascii_of_string alphabet).

Definition isDecimalDigit : ascii -> bool := oneOf "0123456789".

Definition isHexDigit : ascii -> bool := oneOf "0123456789abcdefABCDEF".

(** A well-formed 20-byte hex address: 40 hex digits of either case, bare
    or behind 0x or 0X. *)
Inductive WellFormedAddress : string -> Prop :=
| wfa_bare (d : string) :
    String.length d = 40%nat -> allChars isHexDigit d = true ->
    WellFormedAddress d
| wfa_0x (d : string) :
    String.length d = 40%nat -> allChars isHexDigit d = true ->
    WellFormedAddress ("0x" ++ d)
| wfa_0X (d : string) :
    String.length d = 40%nat -> allChars isHexDigit d = true ->
    WellFormedAddress ("0X" ++ d).

(** The 40 digits of an address string. *)
Definition addressDigits (s : string) : string :=
  if String.prefix "0x" s || String.prefix "0X" s then drop 2 s else s.

Definition lowerChar (c : ascii) : ascii :=
  if between "A" "Z" c then chr (code c + 32) else c.

Fixpoint lower (s : string) : string :=
  match s with
  | EmptyString => EmptyString
  | String c r => String (lowerChar c) (lower r)
  end.

(** The canonical form of an address string: 0x and the digits in lower
    case. *)
Definition canonical (s : string) : string := "0x" ++ lower (addressDigits s).

(** Exactly [k] decimal digits of [r], leading zeros included. *)
Fixpoint fixedWidth (k : nat) (r : Z) : string :=
  match k with
  | O => EmptyString
  | S k' => fixedWidth k' (r / 10) ++ String (Big.digitChar (r mod 10)) ""
  end.

(** A string without its trailing zeros. *)
Fixpoint stripTrailingZeros (s : string) : string :=
  match s with
  | EmptyString => EmptyString
  | String c r =>
      match stripTrailingZeros r with
      | EmptyString => if Ascii.eqb c "0" then EmptyString else String c ""
      | r' => String c r'
      end
  end.

(** An optional sign followed by at least one decimal digit. *)
Definition isSignedDecimal (s : string) : bool :=
  negb (String.eqb (unsignedPart s) "") &&
  allChars isDecimalDigit (unsignedPart s).

(** How often a byte occurs in a string. *)
Fixpoint countChar (c : ascii) (s : string) : nat :=
  match s with
  | EmptyString => O
  | String c' r => ((if Ascii.eqb c' c then 1 else 0) + countChar c r)%nat
  end.

(** The fractional digits the rescale line shows for [v]. *)
Definition fractionDigits (v : Z) : string :=
  stripTrailingZeros (fixedWidth 18 (v mod 10 ^ 18)).

(** The rescale line for [v]. *)
Definition rescaleLine (v : Z) : string :=
  "           = " ++ Big.String_ (v / 10 ^ 18) ++
  (if String.eqb (fractionDigits v) "" then "" else "." ++ fractionDigits v) ++
  " (decimal)" ++ LF.

(** What opens the entry of result [i]. *)
Definition resultHead (i : nat) : event := Stdout ("Result[" ++ fmt_d i ++ "]: ").

(** What follows the index in the entry of a value, type by type. *)
Definition entryBody (w : World) (conv : bool) (v : Value) : list event :=
  match v with
  | VBigInt z =>
      Stdout (Big.String_ z ++ " (big.Int)" ++ LF) ::
      (if conv && (0 <? z) then [Stdout (rescaleLine z)] else [])
  | VString text => [Stdout (text ++ " (string)" ++ LF)]
  | VBytes b => [Stdout ("0x" ++ EncodeToString b ++ " (bytes)" ++ LF)]
  | VAddress a => [Stdout (Hex w a ++ " (address)" ++ LF)]
  | VBool b => [Stdout ((if b then "true" else "false") ++ " (bool)" ++ LF)]
  | VOther repr typeName =>
      [Stdout (repr ++ " (type: " ++ typeName ++ ")" ++ LF)]
  end.

(** The fallback fragment for a function name: one function of that name,
    without inputs, [view], returning one [uint256]. *)
Definition genericFragment (name : string) : string :=
  "[" ++ LF ++
  TAB ++ TAB ++ "{" ++ LF ++
  TAB ++ TAB ++ TAB ++ dq "'inputs': []," ++ LF ++
  TAB ++ TAB ++ TAB ++ dq "'name': '" ++ name ++ dq "'," ++ LF ++
  TAB ++ TAB ++ TAB ++ dq "'outputs': [{'internalType': 'uint256', 'name': '', 'type': 'uint256'}]," ++ LF ++
  TAB ++ TAB ++ TAB ++ dq "'stateMutability': 'view'," ++ LF ++
  TAB ++ TAB ++ TAB ++ dq "'type': 'function'" ++ LF ++
  TAB ++ TAB ++ "}" ++ LF ++
  TAB ++ "]".

(** A dial or a contract call. *)
Definition isNetwork (e : event) : bool :=
  match e with
  | DialRPC _ | EthCall _ _ _ => true
  | _ => false
  end.

(** Written to standard error, directly or by the logger. *)
Definition onStderr (e : event) : bool :=
  match e with
  | Stderr _ | LogLine _ => true
  | _ => false
  end.

End Spec.

Import Spec.

(** The values of a hex digit. *)
Definition nibbles : list Z := map Z.of_nat (seq 0 16).

(** A world with nothing behind it, to run the program on. *)
Definition offlineWorld : World := {|
  Args0 := "story-contract-tool";
  PrintDefaults := "";
  Dial := fun _ => Err "no route to host";
  ReadFile := fun _ => Err "no such file";
  abiJSON := fun _ => Ok tt;
  Call := fun _ _ _ _ => Err "no backend";
  Hex := fun a => "0x" ++ EncodeToString a
|}.

(** ** The driver, path by path *)

(** [t] written, then what [m] does. *)
Definition prefixed {A} (t : list event) (m : M A) : M A :=
  let '(t', r) := m in ((t ++ t')%list, r).

Definition isDial (e : event) : bool :=
  match e with DialRPC _ => true | _ => false end.

Definition isCall (e : event) : bool :=
  match e with EthCall _ _ _ => true | _ => false end.

Definition isStdout (e : event) : bool :=
  match e with Stdout _ => true | _ => false end.

(** The flags with another [-type]. *)
Definition withType (f : Flags) (tag : string) : Flags := {|
  contractAddr := contractAddr f;
  functionName := functionName f;
  rpcURL := rpcURL f;
  contractType := tag;
  abiFile := abiFile f;
  args := args f;
  convert := convert f;
  help := help f
|}.

(** The flags pass the checks that come before the dial. *)
Definition Valid (f : Flags) : Prop :=
  help f = false /\ contractAddr f <> "" /\ functionName f <> "" /\
  IsHexAddress (contractAddr f) = true.

(** What a run writes and does from the dial up to the ABI string. *)
Definition opening (w : World) (f : Flags) : list event :=
  [DialRPC (rpcURL f);
   Stdout ("Connected to Ethereum node at " ++ rpcURL f ++ LF);
   Stdout ("Using contract address: "
           ++ Hex w (HexToAddress (contractAddr f)) ++ LF)] ++
  (if String.eqb (abiFile f) "" then [] else [FileRead (abiFile f)]).

(** The ABI string a run works with: the file's contents when [-abi] is
    given, the predefined fragment otherwise. *)
Definition chosenABI (w : World) (f : Flags) : result string :=
  if String.eqb (abiFile f) "" then
    Ok (predefinedABI (contractType f) (functionName f))
  else ReadFile w (abiFile f).

(** The line that announces the call. *)
Definition callingLine (f : Flags) (a : list Arg) : event :=
  Stdout ("Calling function '" ++ functionName f ++ "' with "
          ++ fmt_d (List.length a) ++ " arguments" ++ LF).

(** The ways a run can go: what it writes and does, and how it ends. *)
Inductive Run (w : World) (f : Flags) : list event -> unit + halt -> Prop :=
| run_help :
    help f = true ->
    Run w f (fst (Usage w)) (inr (Exit 0))
| run_no_contract :
    help f = false -> contractAddr f = "" ->
    Run w f (Stdout ("Error: Contract address is required" ++ LF)
               :: fst (Usage w)) (inr (Exit 1))
| run_no_function :
    help f = false -> contractAddr f <> "" -> functionName f = "" ->
    Run w f (Stdout ("Error: Function name is required" ++ LF)
               :: fst (Usage w)) (inr (Exit 1))
| run_bad_address :
    help f = false -> contractAddr f <> "" -> functionName f <> "" ->
    IsHexAddress (contractAddr f) = false ->
    Run w f [Stdout ("Error: Invalid contract address format: "
                     ++ contractAddr f ++ LF)] (inr (Exit 1))
| run_dial_failed (err : string) :
    Valid f -> Dial w (rpcURL f) = Err err ->
    Run w f [DialRPC (rpcURL f);
             LogLine ("Failed to connect to the Ethereum client: " ++ err)]
            (inr (Exit 1))
| run_read_failed (err : string) :
    Valid f -> Dial w (rpcURL f) = Ok tt ->
    abiFile f <> "" -> ReadFile w (abiFile f) = Err err ->
    Run w f (opening w f ++ [LogLine ("Failed to read ABI file: " ++ err)])
            (inr (Exit 1))
| run_abi_rejected (abiString err : string) :
    Valid f -> Dial w (rpcURL f) = Ok tt ->
    chosenABI w f = Ok abiString -> abiJSON w abiString = Err err ->
    Run w f (opening w f ++
             [LogLine ("Failed to instantiate the contract: "
                       ++ "failed to parse ABI: " ++ err)])
            (inr (Exit 1))
| run_bad_argument (abiString tok : string) :
    Valid f -> Dial w (rpcURL f) = Ok tt ->
    chosenABI w f = Ok abiString -> abiJSON w abiString = Ok tt ->
    prepareArgs (args f) =
      ([LogLine ("Failed to parse hex argument: " ++ tok)], inr (Exit 1)) ->
    Run w f (opening w f ++
             [LogLine ("Failed to parse hex argument: " ++ tok)])
            (inr (Exit 1))
| run_call_failed (abiString : string) (a : list Arg) (err : string) :
    Valid f -> Dial w (rpcURL f) = Ok tt ->
    chosenABI w f = Ok abiString -> abiJSON w abiString = Ok tt ->
    prepareArgs (args f) = ([], inl a) ->
    Call w (HexToAddress (contractAddr f)) abiString (functionName f) a
      = Err err ->
    Run w f (opening w f ++
             [callingLine f a;
              EthCall (HexToAddress (contractAddr f)) (functionName f) a;
              LogLine ("Failed to call function '" ++ functionName f
                       ++ "': " ++ err)])
            (inr (Exit 1))
| run_completed (abiString : string) (a : list Arg) (results : list Value) :
    Valid f -> Dial w (rpcURL f) = Ok tt ->
    chosenABI w f = Ok abiString -> abiJSON w abiString = Ok tt ->
    prepareArgs (args f) = ([], inl a) ->
    Call w (HexToAddress (contractAddr f)) abiString (functionName f) a
      = Ok results ->
    Run w f (opening w f ++
             [callingLine f a;
              EthCall (HexToAddress (contractAddr f)) (functionName f) a;
              Stdout ("Function returned successfully!" ++ LF)] ++
             fst (formatResults w (convert f) results))
            (inl tt).

(** A world in which every step succeeds, and flags to run in it. *)
Definition demoWorld : World := {|
  Args0 := "story-contract-tool";
  PrintDefaults := "";
  Dial := fun _ => Ok tt;
  ReadFile := fun path =>
    if String.eqb path "abi.json" then Ok ERC20ABI else Err "no such file";
  abiJSON := fun _ => Ok tt;
  Call := fun _ _ method _ =>
    if String.eqb method "totalSupply" then Ok [VBigInt 1500000000000000000]
    else Err "execution reverted";
  Hex := fun a => "0x" ++ EncodeToString a
|}.

Definition demoFlags : Flags := {|
  contractAddr := "0x3EF98543F9772DC959255545B717a61D408e7b61";
  functionName := "totalSupply";
  rpcURL := "http://localhost:8545";
  contractType := "erc20";
  abiFile := "";
  args := "";
  convert := true;
  help := false
|}.

Definition abiFileFlags : Flags := {|
  contractAddr := "0x3EF98543F9772DC959255545B717a61D408e7b61";
  functionName := "totalSupply";
  rpcURL := "http://localhost:8545";
  contractType := "generic";
  abiFile := "abi.json";
  args := "";
  convert := false;
  help := false
|}.

(** ** Strings: lengths, slices, pieces *)

Lemma length_append (s t : string) :
  String.length (s ++ t) = (String.length s + String.length t)%nat.
Proof. induction s as [|c s IH]; simpl; [reflexivity | now rewrite IH]. Qed.

Lemma append_nil_r (s : string) : s ++ "" = s.
Proof. induction s as [|c s IH]; simpl; [reflexivity | now rewrite IH]. Qed.

Lemma append_assoc (s t u : string) : (s ++ t) ++ u = s ++ (t ++ u).
Proof. induction s as [|c s IH]; simpl; [reflexivity | now rewrite IH]. Qed.

Lemma allChars_append (p : ascii -> bool) (s t : string) :
  allChars p (s ++ t) = allChars p s && allChars p t.
Proof.
  induction s as [|c s IH]; simpl; [reflexivity|].
  rewrite IH. now rewrite andb_assoc.
Qed.

Ltac by_bytes :=
  let c := fresh "c" in
  intros c; destruct c as [[] [] [] [] [] [] [] []]; vm_compute;
  try reflexivity; try discriminate; auto.

Lemma digitVal_nonneg : forall c, 0 <= Big.digitVal c.
Proof. by_bytes; discriminate. Qed.

Lemma isDigitOf_10 : forall c, isDigitOf 10 c = isDecimalDigit c.
Proof. by_bytes. Qed.

Lemma isDigitOf_16 : forall c, isDigitOf 16 c = isHexDigit c.
Proof. by_bytes. Qed.

Lemma isHexCharacter_isHexDigit : forall c, isHexCharacter c = isHexDigit c.
Proof. by_bytes. Qed.

Lemma allChars_ext (p q : ascii -> bool) (s : string) :
  (forall c, p c = q c) -> allChars p s = allChars q s.
Proof. intros E. induction s as [|c s IH]; simpl; [reflexivity | now rewrite E, IH]. Qed.

(** ** [SetString] is the numeral parser of the specification *)

Section Scan.

Variable base : Z.

Lemma natScan_digits (s : string) : forall z n,
  allChars (isDigitOf base) s = true ->
  Big.natScan base s z n =
    (z * base ^ Z.of_nat (String.length s) + positional base s,
     (n + String.length s)%nat, "").
Proof.
  induction s as [|c s IH]; intros z n H;
    cbn [Big.natScan allChars String.length positional] in *.
  - repeat f_equal; lia.
  - apply andb_prop in H. destruct H as [Hc Hs].
    unfold isDigitOf in Hc. apply Z.ltb_lt in Hc.
    destruct (Z.geb_spec (Big.digitVal c) base) as [Hge|_]; [lia|].
    rewrite (IH _ _ Hs).
    rewrite Nat2Z.inj_succ, Z.pow_succ_r by lia.
    f_equal. f_equal; [ring | lia].
Qed.

Lemma natScan_stops (s : string) : forall z n,
  allChars (isDigitOf base) s = false ->
  exists z' n' c r, Big.natScan base s z n = (z', n', String c r).
Proof.
  induction s as [|c s IH]; intros z n H; simpl in *; [discriminate|].
  unfold isDigitOf in H at 1.
  destruct (Z.geb_spec (Big.digitVal c) base) as [Hge|Hlt].
  - now exists z, n, c, s.
  - apply andb_false_iff in H. destruct H as [H|H].
    + apply Z.ltb_ge in H. lia.
    + apply IH. exact H.
Qed.

(** After the sign, [SetString] wants digits, all digits, and one at least. *)
Lemma scan_body (body : string) (neg : bool) :
  match Big.natScan base body 0 0 with
  | (_, O, _) => None
  | (z, S _, EmptyString) => Some (if neg then - z else z)
  | (_, S _, String _ _) => None
  end =
  if negb (String.eqb body "") && allChars (isDigitOf base) body
  then Some (if neg then - positional base body else positional base body)
  else None.
Proof.
  destruct body as [|c r]; [reflexivity|].
  change (String.eqb (String c r) "") with false. cbn [negb andb].
  destruct (allChars (isDigitOf base) (String c r)) eqn:E.
  - rewrite (natScan_digits _ 0 0%nat E). simpl (0 + _)%nat.
    cbn [String.length]. now rewrite Z.mul_0_l, Z.add_0_l.
  - destruct (natScan_stops _ 0 0%nat E) as (z' & n' & c' & r' & ->).
    now destruct n'.
Qed.

Theorem SetString_spec (s : string) :
  Big.SetString s base = parseNumeral base s.
Proof.
  unfold Big.SetString, parseNumeral, isNumeral, numeralValue, negative.
  destruct s as [|ch r]; [reflexivity|].
  cbn [unsignedPart String.prefix].
  destruct (Ascii.eqb_spec ch "-") as [->|Hm].
  - etransitivity; [exact (scan_body r true)|].
    cbn [orb]. destruct (ascii_dec "-" "-") as [_|N]; [|now elim N].
    now destruct r.
  - destruct (Ascii.eqb_spec ch "+") as [->|Hp].
    + etransitivity; [exact (scan_body r false)|]. reflexivity.
    + etransitivity; [exact (scan_body (String ch r) false)|].
      cbn [orb]. destruct (ascii_dec "-" ch) as [E|_]; [now subst ch|].
      reflexivity.
Qed.

End Scan.

(** ** Addresses: [IsHexAddress] and [HexToAddress] *)

Lemma allChars_hex (d : string) :
  allChars isHexCharacter d = allChars isHexDigit d.
Proof. apply allChars_ext, isHexCharacter_isHexDigit. Qed.

Lemma hexDigits_no_prefix (d : string) :
  allChars isHexDigit d = true -> has0xPrefix d = false.
Proof.
  destruct d as [|c0 [|c1 r]]; try reflexivity.
  cbn [allChars has0xPrefix]. intros H.
  apply andb_prop in H. destruct H as [_ H]. apply andb_prop in H.
  destruct H as [H1 _].
  destruct (Ascii.eqb_spec c1 "x") as [->|_]; [discriminate|].
  destruct (Ascii.eqb_spec c1 "X") as [->|_]; [discriminate|].
  now rewrite andb_false_r.
Qed.

Lemma isHex_40 (d : string) :
  String.length d = 40%nat -> isHex d = allChars isHexDigit d.
Proof. intros L. unfold isHex. rewrite L. cbn. apply allChars_hex. Qed.

Lemma has0xPrefix_inv (s : string) :
  has0xPrefix s = true -> s = "0x" ++ drop 2 s \/ s = "0X" ++ drop 2 s.
Proof.
  destruct s as [|c0 [|c1 r]]; try discriminate.
  cbn [has0xPrefix drop]. intros H. apply andb_prop in H. destruct H as [H0 H1].
  apply Ascii.eqb_eq in H0. subst c0.
  apply orb_prop in H1. destruct H1 as [H1|H1]; apply Ascii.eqb_eq in H1; subst c1;
    [now left | now right].
Qed.

Theorem IsHexAddress_spec (s : string) :
  IsHexAddress s = true <-> WellFormedAddress s.
Proof.
  unfold IsHexAddress. cbv zeta. split.
  - destruct (has0xPrefix s) eqn:P; intros H; apply andb_prop in H;
      destruct H as [L H]; apply Nat.eqb_eq in L; rewrite (isHex_40 _ L) in H.
    + destruct (has0xPrefix_inv _ P) as [E|E]; rewrite E;
        [now apply wfa_0x | now apply wfa_0X].
    + now apply wfa_bare.
  - intros [d L H|d L H|d L H].
    + rewrite (hexDigits_no_prefix _ H). rewrite L, (isHex_40 _ L). exact H.
    + change (has0xPrefix ("0x" ++ d)) with true.
      change (drop 2 ("0x" ++ d)) with d. cbv iota. rewrite L, (isHex_40 _ L). exact H.
    + change (has0xPrefix ("0X" ++ d)) with true.
      change (drop 2 ("0X" ++ d)) with d. cbv iota. rewrite L, (isHex_40 _ L). exact H.
Qed.

Lemma prefix_cons (c c' : ascii) (p s : string) :
  String.prefix (String c p) (String c' s) = Ascii.eqb c' c && String.prefix p s.
Proof.
  cbn [String.prefix]. destruct (ascii_dec c c') as [->|N].
  - now rewrite Ascii.eqb_refl.
  - destruct (Ascii.eqb_spec c' c) as [->|_]; [now elim N | reflexivity].
Qed.

Lemma prefix_empty (s : string) : String.prefix "" s = true.
Proof. now destruct s. Qed.

Lemma addressDigits_has0xPrefix (s : string) :
  addressDigits s = if has0xPrefix s then drop 2 s else s.
Proof.
  unfold addressDigits. destruct s as [|c0 [|c1 r]]; try reflexivity.
  - rewrite !prefix_cons. cbn [String.prefix has0xPrefix].
    now rewrite !andb_false_r.
  - rewrite !prefix_cons, !prefix_empty, !andb_true_r. cbn [has0xPrefix].
    now rewrite <- andb_orb_distrib_r.
Qed.

Lemma in_nibbles (a : Z) : 0 <= a <= 15 -> In a nibbles.
Proof.
  intros H. unfold nibbles. rewrite <- (Z2Nat.id a) by lia.
  apply in_map, in_seq. lia.
Qed.

Lemma nibble_pair (a b : Z) :
  0 <= a <= 15 -> 0 <= b <= 15 ->
  Z.shiftr (Z.lor (Z.shiftl a 4) b) 4 = a /\ Z.land (Z.lor (Z.shiftl a 4) b) 15 = b
  /\ 0 <= Z.lor (Z.shiftl a 4) b < 256.
Proof.
  intros Ha Hb.
  assert (C : forallb (fun a => forallb (fun b =>
                (Z.shiftr (Z.lor (Z.shiftl a 4) b) 4 =? a) &&
                (Z.land (Z.lor (Z.shiftl a 4) b) 15 =? b) &&
                (0 <=? Z.lor (Z.shiftl a 4) b) &&
                (Z.lor (Z.shiftl a 4) b <? 256)) nibbles) nibbles = true)
    by (vm_compute; reflexivity).
  rewrite forallb_forall in C. specialize (C a (in_nibbles a Ha)).
  rewrite forallb_forall in C. specialize (C b (in_nibbles b Hb)).
  rewrite !andb_true_iff in C. destruct C as [[[C1 C2] C3] C4].
  apply Z.eqb_eq in C1, C2. apply Z.leb_le in C3. apply Z.ltb_lt in C4.
  repeat split; assumption.
Qed.

Lemma fromHexChar_range : forall c,
  isHexDigit c = true -> 0 <= fromHexChar c <= 15.
Proof. by_bytes; intros _; split; discriminate. Qed.

Lemma hextable_fromHexChar : forall c,
  isHexDigit c = true -> hextable (fromHexChar c) = lowerChar c.
Proof. by_bytes. Qed.

Lemma Hex2Bytes_digits (n : nat) : forall d,
  String.length d = (2 * n)%nat -> allChars isHexDigit d = true ->
  EncodeToString (Hex2Bytes d) = lower d /\
  List.length (Hex2Bytes d) = n /\
  Forall (fun b => 0 <= b < 256) (Hex2Bytes d).
Proof.
  induction n as [|n IH]; intros d L H.
  - destruct d; [|discriminate]. repeat split. constructor.
  - destruct d as [|p [|q r]]; cbn [String.length] in L; try lia.
    cbn [allChars] in H. apply andb_prop in H. destruct H as [Hp H].
    apply andb_prop in H. destruct H as [Hq Hr].
    cbn [String.length] in L.
    destruct (IH r ltac:(lia) Hr) as (E & Ln & F).
    pose proof (fromHexChar_range _ Hp) as Rp.
    pose proof (fromHexChar_range _ Hq) as Rq.
    destruct (nibble_pair _ _ Rp Rq) as (Hhi & Hlo & Hb).
    cbn [Hex2Bytes].
    destruct (Z.gtb_spec (fromHexChar p) 15); [lia|].
    destruct (Z.gtb_spec (fromHexChar q) 15); [lia|].
    cbn [EncodeToString lower List.length].
    rewrite Hhi, Hlo, E, Ln, !hextable_fromHexChar by assumption.
    repeat split. now constructor.
Qed.

(** On a well-formed address string [HexToAddress] yields the 20 bytes
    whose hex encoding is the canonical form of the string. *)
Theorem HexToAddress_canonical (s : string) :
  WellFormedAddress s ->
  List.length (HexToAddress s) = 20%nat /\
  Forall (fun b => 0 <= b < 256) (HexToAddress s) /\
  "0x" ++ EncodeToString (HexToAddress s) = canonical s.
Proof.
  intros W.
  assert (D : String.length (addressDigits s) = (2 * 20)%nat /\
              allChars isHexDigit (addressDigits s) = true).
  { rewrite addressDigits_has0xPrefix.
    destruct W as [d L H|d L H|d L H].
    - now rewrite (hexDigits_no_prefix _ H).
    - change (has0xPrefix ("0x" ++ d)) with true. now cbn [append drop].
    - change (has0xPrefix ("0X" ++ d)) with true. now cbn [append drop]. }
  destruct D as [L H].
  destruct (Hex2Bytes_digits 20 _ L H) as (E & Ln & F).
  assert (HA : HexToAddress s = Hex2Bytes (addressDigits s)).
  { unfold HexToAddress, FromHex, BytesToAddress. cbv zeta.
    rewrite <- addressDigits_has0xPrefix, L.
    change (Nat.eqb (Nat.modulo (2 * 20) 2) 1) with false. cbv iota.
    rewrite Ln. change (Nat.ltb AddressLength 20) with false. cbv iota.
    rewrite Ln. reflexivity. }
  rewrite HA. unfold canonical. rewrite E. now repeat split.
Qed.

(** ** The argument coercer *)

Lemma IsHexAddress_false (s : string) :
  ~ WellFormedAddress s -> IsHexAddress s = false.
Proof.
  intros N. destruct (IsHexAddress s) eqn:E; [|reflexivity].
  now apply IsHexAddress_spec in E.
Qed.

(** The coercer, with its two library tests read as the specification
    reads them. *)
Lemma coerceArg_unfold (arg : string) :
  coerceArg arg =
  if IsHexAddress arg then ret (ArgAddress (HexToAddress arg))
  else if HasPrefix arg "0x" then
    match parseNumeral 16 (drop 2 arg) with
    | None => Fatalf ("Failed to parse hex argument: " ++ arg)
    | Some z => ret (ArgInt z)
    end
  else
    match parseNumeral 10 arg with
    | Some z => ret (ArgInt z)
    | None => ret (ArgString arg)
    end.
Proof. unfold coerceArg. now rewrite !SetString_spec. Qed.

(** A string of digits carries no sign. *)
Lemma digits_unsigned (p : ascii -> bool) (d : string) :
  p "-"%char = false -> p "+"%char = false -> allChars p d = true ->
  unsignedPart d = d /\ negative d = false.
Proof.
  intros Hm Hp H. destruct d as [|c r]; [now split|].
  cbn [allChars] in H. apply andb_prop in H. destruct H as [Hc _].
  unfold negative. rewrite prefix_cons. cbn [unsignedPart].
  destruct (Ascii.eqb_spec c "-") as [->|_]; [congruence|].
  destruct (Ascii.eqb_spec c "+") as [->|_]; [congruence|].
  now split.
Qed.

Lemma parseNumeral_hexDigits (d : string) :
  d <> "" -> allChars isHexDigit d = true ->
  parseNumeral 16 d = Some (positional 16 d).
Proof.
  intros Ne H. destruct (digits_unsigned isHexDigit d eq_refl eq_refl H) as [U Nn].
  unfold parseNumeral, isNumeral, numeralValue. rewrite U, Nn.
  rewrite (allChars_ext _ _ _ isDigitOf_16), H.
  destruct (String.eqb_spec d "") as [->|_]; [now elim Ne | reflexivity].
Qed.

(** C1. Every trimmed token is coerced by one fixed order of tests: a
    well-formed 20-byte hex address (either case, with or without 0x)
    becomes the address whose hex encoding is the canonical form of the
    token; any other token that starts with 0x goes through the base-16
    parse of what follows the prefix; any other token that is a base-10
    numeral becomes that integer; and what is left is passed on as the
    string itself. *)
Theorem coerceArg_priority (tok : string) :
  (WellFormedAddress tok ->
     exists a, coerceArg tok = ret (ArgAddress a) /\
               List.length a = 20%nat /\
               "0x" ++ EncodeToString a = canonical tok) /\
  (~ WellFormedAddress tok -> HasPrefix tok "0x" = true ->
     coerceArg tok =
       match parseNumeral 16 (drop 2 tok) with
       | Some z => ret (ArgInt z)
       | None => Fatalf ("Failed to parse hex argument: " ++ tok)
       end) /\
  (~ WellFormedAddress tok -> HasPrefix tok "0x" = false ->
     coerceArg tok =
       match parseNumeral 10 tok with
       | Some z => ret (ArgInt z)
       | None => ret (ArgString tok)
       end).
Proof.
  rewrite coerceArg_unfold. repeat split.
  - intros W. exists (HexToAddress tok).
    destruct (HexToAddress_canonical tok W) as (L & _ & C).
    apply IsHexAddress_spec in W. rewrite W. now repeat split.
  - intros N P. rewrite (IsHexAddress_false _ N), P.
    now destruct (parseNumeral 16 (drop 2 tok)).
  - intros N P. now rewrite (IsHexAddress_false _ N), P.
Qed.

Lemma coerceArg_priority_witness :
  (exists a, coerceArg "0x3EF98543F9772DC959255545B717a61D408e7b61"
               = ret (ArgAddress a) /\
             List.length a = 20%nat /\
             "0x" ++ EncodeToString a
               = "0x3ef98543f9772dc959255545b717a61d408e7b61") /\
  coerceArg "0x1F" = ret (ArgInt 31) /\
  coerceArg "42" = ret (ArgInt 42) /\
  coerceArg "4 2" = ret (ArgString "4 2").
Proof.
  split; [|split; [|split]].
  - apply (proj1 (coerceArg_priority "0x3EF98543F9772DC959255545B717a61D408e7b61")).
    apply (wfa_0x "3EF98543F9772DC959255545B717a61D408e7b61"); reflexivity.
  - apply (proj1 (proj2 (coerceArg_priority "0x1F"))); [|reflexivity].
    intros W. apply IsHexAddress_spec in W. discriminate W.
  - apply (proj2 (proj2 (coerceArg_priority "42"))); [|reflexivity].
    intros W. apply IsHexAddress_spec in W. discriminate W.
  - apply (proj2 (proj2 (coerceArg_priority "4 2"))); [|reflexivity].
    intros W. apply IsHexAddress_spec in W. discriminate W.
Defined.

(** C4. A trimmed token that starts with 0x and is no well-formed address
    is parsed, behind the prefix, as a base-16 integer and becomes that
    integer (for a run of hex digits, their positional value); when the
    parse fails the run ends in a fatal diagnostic with status 1, and in no
    case is the token passed on as a string. *)
Theorem coerceArg_hex (tok : string) :
  HasPrefix tok "0x" = true -> ~ WellFormedAddress tok ->
  match parseNumeral 16 (drop 2 tok) with
  | Some z => coerceArg tok = ([], inl (ArgInt z))
  | None => coerceArg tok =
              ([LogLine ("Failed to parse hex argument: " ++ tok)], inr (Exit 1))
  end /\
  (drop 2 tok <> "" -> allChars isHexDigit (drop 2 tok) = true ->
     coerceArg tok = ([], inl (ArgInt (positional 16 (drop 2 tok))))) /\
  (forall t s, coerceArg tok <> (t, inl (ArgString s))).
Proof.
  intros P N.
  assert (E : coerceArg tok =
              match parseNumeral 16 (drop 2 tok) with
              | Some z => ret (ArgInt z)
              | None => Fatalf ("Failed to parse hex argument: " ++ tok)
              end).
  { rewrite coerceArg_unfold, (IsHexAddress_false _ N), P.
    now destruct (parseNumeral 16 (drop 2 tok)). }
  split; [|split].
  - rewrite E. now destruct (parseNumeral 16 (drop 2 tok)).
  - intros Ne H. now rewrite E, (parseNumeral_hexDigits _ Ne H).
  - intros t s. rewrite E. now destruct (parseNumeral 16 (drop 2 tok)).
Qed.

Lemma coerceArg_hex_witness :
  coerceArg "0xde0b6b3a7640000" = ([], inl (ArgInt 1000000000000000000)) /\
  coerceArg "0xzz" = ([LogLine "Failed to parse hex argument: 0xzz"], inr (Exit 1)).
Proof.
  split.
  - apply (proj1 (proj2 (coerceArg_hex "0xde0b6b3a7640000" eq_refl
      (fun W => Bool.diff_false_true (proj2 (IsHexAddress_spec _) W))))).
    + discriminate.
    + reflexivity.
  - exact (proj1 (coerceArg_hex "0xzz" eq_refl
      (fun W => Bool.diff_false_true (proj2 (IsHexAddress_spec _) W)))).
Defined.

(** C9. Coercing a trimmed token ends the run in exactly one case: the
    token starts with 0x, is no well-formed address, and what follows the
    prefix is no base-16 numeral.  A token that does not start with 0x is
    always coerced, to an address, an integer or a string. *)
Theorem coerceArg_fatal_iff (tok : string) :
  ((exists t h, coerceArg tok = (t, inr h)) <->
     HasPrefix tok "0x" = true /\ ~ WellFormedAddress tok /\
     isNumeral 16 (drop 2 tok) = false) /\
  (HasPrefix tok "0x" = false -> exists a, coerceArg tok = ([], inl a)).
Proof.
  rewrite coerceArg_unfold. unfold parseNumeral.
  destruct (IsHexAddress tok) eqn:A.
  - apply IsHexAddress_spec in A. split.
    + split; [intros (t & h & E); discriminate E | intros (_ & N & _); now elim N].
    + intros _. now eexists.
  - assert (N : ~ WellFormedAddress tok)
      by (intros W; apply IsHexAddress_spec in W; congruence).
    destruct (HasPrefix tok "0x") eqn:P.
    + split; [|discriminate].
      destruct (isNumeral 16 (drop 2 tok)) eqn:V.
      * split; [intros (t & h & E); discriminate E | intros (_ & _ & F); discriminate F].
      * split; [now intros _ | intros _; now eexists _, _].
    + split.
      * split; [|intros (F & _); discriminate F].
        intros (t & h & E). destruct (isNumeral 10 tok); discriminate E.
      * intros _. destruct (isNumeral 10 tok); now eexists.
Qed.

Lemma coerceArg_fatal_iff_witness :
  (exists t h, coerceArg "0x" = (t, inr h)) /\
  (exists a, coerceArg "-0x10" = ([], inl a)).
Proof.
  split.
  - apply (proj2 (proj1 (coerceArg_fatal_iff "0x"))).
    split; [reflexivity|]. split; [|reflexivity].
    intros W. apply IsHexAddress_spec in W. discriminate W.
  - apply (proj2 (coerceArg_fatal_iff "-0x10")). reflexivity.
Defined.

Lemma positional_nonneg (base : Z) (s : string) :
  0 <= base -> 0 <= positional base s.
Proof.
  intros B. induction s as [|c s IH]; cbn [positional]; [lia|].
  pose proof (digitVal_nonneg c).
  pose proof (Z.pow_nonneg base (Z.of_nat (String.length s)) B). nia.
Qed.

Lemma signedDecimal_no_0x (s : string) :
  isSignedDecimal s = true -> HasPrefix s "0x" = false.
Proof.
  unfold isSignedDecimal, HasPrefix. intros H.
  apply andb_prop in H. destruct H as [_ H].
  destruct s as [|c0 [|c1 r]]; try reflexivity.
  - rewrite prefix_cons. cbn [String.prefix]. apply andb_false_r.
  - rewrite !prefix_cons.
    destruct (Ascii.eqb_spec c0 "0") as [->|_]; [|reflexivity].
    destruct (Ascii.eqb_spec c1 "x") as [->|_]; [|reflexivity].
    cbn in H. discriminate H.
Qed.

Lemma negative_not_address (s : string) :
  negative s = true -> ~ WellFormedAddress s.
Proof.
  unfold negative. intros Hn W. destruct W as [d L H|d L H|d L H];
    try discriminate Hn.
  destruct d as [|c r]; [discriminate Hn|].
  rewrite prefix_cons in Hn. apply andb_prop in Hn. destruct Hn as [Hc _].
  apply Ascii.eqb_eq in Hc. subst c. discriminate H.
Qed.

(** C10. A token made of an optional sign and decimal digits is read by
    the base-10 parse as the signed integer it denotes; the coercer, once
    past the address test, passes it on as that integer, and a token with a
    minus sign always gets there: negative numbers are integer arguments,
    never strings. *)
Theorem coerceArg_signed_decimal (tok : string) :
  isSignedDecimal tok = true ->
  Big.SetString tok 10 = Some (numeralValue 10 tok) /\
  (~ WellFormedAddress tok ->
     coerceArg tok = ([], inl (ArgInt (numeralValue 10 tok)))) /\
  (negative tok = true ->
     coerceArg tok = ([], inl (ArgInt (numeralValue 10 tok))) /\
     numeralValue 10 tok = - positional 10 (unsignedPart tok) /\
     numeralValue 10 tok <= 0).
Proof.
  intros D.
  assert (V : parseNumeral 10 tok = Some (numeralValue 10 tok)).
  { unfold parseNumeral, isNumeral. unfold isSignedDecimal in D.
    now rewrite (allChars_ext _ _ _ isDigitOf_10), D. }
  assert (C : ~ WellFormedAddress tok ->
              coerceArg tok = ([], inl (ArgInt (numeralValue 10 tok)))).
  { intros N. rewrite coerceArg_unfold, (IsHexAddress_false _ N).
    now rewrite (signedDecimal_no_0x _ D), V. }
  split; [now rewrite SetString_spec|]. split; [exact C|].
  intros Hn. split; [exact (C (negative_not_address _ Hn))|].
  unfold numeralValue. rewrite Hn. split; [reflexivity|].
  pose proof (positional_nonneg 10 (unsignedPart tok)). lia.
Qed.

Lemma coerceArg_signed_decimal_witness :
  Big.SetString "-42" 10 = Some (-42) /\
  coerceArg "-42" = ([], inl (ArgInt (-42))).
Proof.
  split.
  - exact (proj1 (coerceArg_signed_decimal "-42" eq_refl)).
  - exact (proj1 (proj2 (proj2 (coerceArg_signed_decimal "-42" eq_refl)) eq_refl)).
Defined.

(** A run of exactly 40 decimal digits is a well-formed address, and is
    coerced as one. *)
Example forty_digits_are_an_address :
  isSignedDecimal "1234567890123456789012345678901234567890" = true /\
  exists a, coerceArg "1234567890123456789012345678901234567890"
              = ([], inl (ArgAddress a)).
Proof. split; [reflexivity | now eexists]. Qed.

(** ** The loop over the tokens *)

Lemma Split_length (s : string) (sep : ascii) :
  List.length (Split s sep) = S (countChar sep s).
Proof.
  induction s as [|c s IH]; [reflexivity|].
  cbn [Split countChar]. destruct (Ascii.eqb c sep).
  - cbn [List.length]. now rewrite IH.
  - destruct (Split s sep) as [|piece rest]; [discriminate IH|].
    cbn [List.length] in *. exact IH.
Qed.

Lemma coerceArg_shape (tok : string) :
  (exists a, coerceArg tok = ([], inl a)) \/
  coerceArg tok = ([LogLine ("Failed to parse hex argument: " ++ tok)], inr (Exit 1)).
Proof.
  unfold coerceArg. destruct (IsHexAddress tok); [left; now eexists|].
  destruct (HasPrefix tok "0x").
  - destruct (Big.SetString (drop 2 tok) 16); [left; now eexists | now right].
  - destruct (Big.SetString tok 10); left; now eexists.
Qed.

Lemma coerceLoop_tokens (argsList : list string) : forall acc t out,
  coerceLoop argsList acc = (t, inl out) ->
  t = [] /\
  exists new, out = (acc ++ new)%list /\
    Forall2 (fun tok a => coerceArg (TrimSpace tok) = ([], inl a)) argsList new.
Proof.
  induction argsList as [|arg rest IH]; intros acc t out H; cbn [coerceLoop] in H.
  - injection H as <- <-. split; [reflexivity|]. exists [].
    now rewrite app_nil_r.
  - destruct (coerceArg_shape (TrimSpace arg)) as [[a E]|E];
      rewrite E in H; unfold bind in H; [|discriminate H].
    destruct (coerceLoop rest (acc ++ [a])%list) as [t' r] eqn:L.
    injection H as <- ->.
    destruct (IH _ _ _ L) as (-> & new & -> & F).
    split; [reflexivity|]. exists (a :: new). split.
    + now rewrite <- app_assoc.
    + now constructor.
Qed.

(** C6, as the code has it. When the coercion completes, an empty argument
    string gives no argument, and any other string gives one typed argument
    for each comma-split token, in the order of the tokens: as many as
    there are commas, plus one.  Empty tokens count too; each becomes the
    empty string argument. *)
Theorem prepareArgs_one_per_token (raw : string) (t : list event) (out : list Arg) :
  prepareArgs raw = (t, inl out) ->
  (raw = "" -> out = []) /\
  (raw <> "" ->
     Forall2 (fun tok a => coerceArg (TrimSpace tok) = ([], inl a))
             (Split raw ",") out /\
     List.length out = S (countChar "," raw) /\
     forall i tok, nth_error (Split raw ",") i = Some tok -> TrimSpace tok = "" ->
                   nth_error out i = Some (ArgString "")).
Proof.
  unfold prepareArgs. intros H. split.
  - intros ->. cbn in H. now injection H as _ <-.
  - intros Ne. destruct (String.eqb_spec raw "") as [E|_]; [now elim Ne|].
    cbn [negb] in H. destruct (coerceLoop_tokens _ _ _ _ H) as (_ & new & -> & F).
    cbn [app]. split; [exact F|]. split.
    + rewrite <- (Forall2_length F). apply Split_length.
    + clear H. induction F as [|tok a toks new E F IH]; intros i tok' Hi Ht.
      * now destruct i.
      * destruct i as [|i]; cbn [nth_error] in *.
        -- injection Hi as ->. rewrite Ht in E. cbn in E. now injection E as <-.
        -- now apply IH with tok'.
Qed.

Lemma prepareArgs_one_per_token_witness :
  Forall2 (fun tok a => coerceArg (TrimSpace tok) = ([], inl a))
    (Split "0x3EF98543F9772DC959255545B717a61D408e7b61,42" ",")
    [ArgAddress (HexToAddress "0x3EF98543F9772DC959255545B717a61D408e7b61");
     ArgInt 42] /\
  List.length
    [ArgAddress (HexToAddress "0x3EF98543F9772DC959255545B717a61D408e7b61");
     ArgInt 42] = 2%nat.
Proof.
  destruct (proj2 (prepareArgs_one_per_token
                     "0x3EF98543F9772DC959255545B717a61D408e7b61,42" [] _ eq_refl)
              ltac:(discriminate)) as (F & L & _).
  split; [exact F | exact L].
Defined.

(** C6, as the specification words it, fails: the coercer gives an argument
    to an empty token as well, so three arguments come out of a string with two
    non-empty tokens. *)
Lemma prepareArgs_keeps_empty_tokens :
  prepareArgs "1,,2" = ([], inl [ArgInt 1; ArgString ""; ArgInt 2]) /\
  List.length [ArgInt 1; ArgString ""; ArgInt 2] <>
  List.length (filter (fun tok => negb (String.eqb tok ""))
                      (map TrimSpace (Split "1,,2" ","))).
Proof. split; [reflexivity | discriminate]. Qed.

(** ** The two loops of the rescale line *)

Lemma padLoop_spec (s : string) :
  padLoop s = repeatChar "0" (18 - String.length s) ++ s.
Proof.
  funelim (padLoop s).
  - cbn [append String.length] in *. rewrite H.
    replace (18 - String.length fracStr)%nat
      with (S (18 - S (String.length fracStr))) by lia.
    clear. induction (18 - S (String.length fracStr))%nat as [|k IH];
      [reflexivity|]. cbn [repeatChar append] in *. now rewrite IH.
  - replace (18 - String.length fracStr)%nat with O by lia. reflexivity.
Qed.

Lemma snoc_view (s : string) :
  s <> "" -> exists p c, s = p ++ String c "".
Proof.
  induction s as [|c s IH]; [now intros N|]. intros _.
  destruct s as [|c' s'].
  - now exists "", c.
  - destruct IH as (p & c0 & E); [discriminate|]. rewrite E.
    now exists (String c p), c0.
Qed.

Lemma length_snoc (p : string) (c : ascii) :
  (String.length (p ++ String c "") - 1)%nat = String.length p.
Proof. rewrite length_append. cbn [String.length]. lia. Qed.

Lemma get_snoc (p : string) (c : ascii) :
  String.get (String.length p) (p ++ String c "") = Some c.
Proof. induction p as [|c' p IH]; [reflexivity | exact IH]. Qed.

Lemma substring_snoc (p : string) (c : ascii) :
  substring 0 (String.length p) (p ++ String c "") = p.
Proof. induction p as [|c' p IH]; cbn; [reflexivity | now rewrite IH]. Qed.

Lemma strip_snoc (p : string) (c : ascii) :
  stripTrailingZeros (p ++ String c "") =
  if Ascii.eqb c "0" then stripTrailingZeros p else p ++ String c "".
Proof.
  induction p as [|c' p IH]; cbn [append stripTrailingZeros].
  - now destruct (Ascii.eqb c "0").
  - rewrite IH. destruct (Ascii.eqb c "0"); [reflexivity|].
    now destruct p.
Qed.

(** The trimming loop never indexes out of range, and strips the zeros. *)
Lemma trimLoop_spec (s : string) : trimLoop s = Some (stripTrailingZeros s).
Proof.
  funelim (trimLoop s).
  - now destruct fracStr.
  - clear Heq0 Heqcall.
    destruct (snoc_view fracStr) as (p & c0 & E); [now destruct fracStr|].
    subst fracStr. rewrite length_snoc, get_snoc in Heq. discriminate Heq.
  - clear Heq1 Heqcall.
    destruct (snoc_view fracStr) as (p & c0 & E); [now destruct fracStr|].
    subst fracStr. rewrite length_snoc in *. rewrite get_snoc in Heq0.
    injection Heq0 as ->. rewrite substring_snoc in *.
    now rewrite H, strip_snoc, Heq.
  - clear Heq1 Heqcall.
    destruct (snoc_view fracStr) as (p & c0 & E); [now destruct fracStr|].
    subst fracStr. rewrite length_snoc, get_snoc in Heq0. injection Heq0 as ->.
    now rewrite strip_snoc, Heq.
Qed.

Lemma repeatChar_snoc (c : ascii) (n : nat) :
  repeatChar c n ++ String c "" = String c (repeatChar c n).
Proof. induction n as [|n IH]; cbn; [reflexivity | now rewrite IH]. Qed.

(** Stripping removes zeros only, and all of the trailing ones. *)
Lemma strip_zeros (s : string) :
  s = stripTrailingZeros s ++
      repeatChar "0" (String.length s - String.length (stripTrailingZeros s)) /\
  (String.length (stripTrailingZeros s) <= String.length s)%nat.
Proof.
  induction s as [|c s [IH L]]; [now split|].
  cbn [stripTrailingZeros].
  destruct (stripTrailingZeros s) as [|c' r] eqn:E.
  - cbn [String.length append] in IH. rewrite Nat.sub_0_r in IH.
    destruct (Ascii.eqb_spec c "0") as [->|_]; cbn [String.length append].
    + split; [|lia]. cbn [Nat.sub repeatChar]. f_equal. exact IH.
    + split; [|lia]. cbn [Nat.sub]. rewrite Nat.sub_0_r. f_equal. exact IH.
  - cbn [String.length append] in *. split; [|lia]. f_equal. exact IH.
Qed.

(** ** Decimal numerals: [String], fixed width, and reading them back *)

Lemma digitChar_decimal (d : Z) :
  0 <= d < 10 -> isDecimalDigit (Big.digitChar d) = true /\
                 Big.digitVal (Big.digitChar d) = d.
Proof.
  intros H.
  assert (C : forallb (fun d => isDecimalDigit (Big.digitChar d) &&
                                (Big.digitVal (Big.digitChar d) =? d))
                (map Z.of_nat (seq 0 10)) = true)
    by (vm_compute; reflexivity).
  rewrite forallb_forall in C.
  assert (I : In d (map Z.of_nat (seq 0 10))).
  { rewrite <- (Z2Nat.id d) by lia. apply in_map, in_seq. lia. }
  specialize (C d I).
  apply andb_prop in C. destruct C as [C1 C2]. apply Z.eqb_eq in C2. now split.
Qed.

Lemma length_fixedWidth (k : nat) : forall r, String.length (fixedWidth k r) = k.
Proof.
  induction k as [|k IH]; intros r; cbn [fixedWidth]; [reflexivity|].
  rewrite length_append, IH. cbn. lia.
Qed.

Lemma fixedWidth_digits (k : nat) : forall r,
  allChars isDecimalDigit (fixedWidth k r) = true.
Proof.
  induction k as [|k IH]; intros r; cbn [fixedWidth]; [reflexivity|].
  rewrite allChars_append, IH. cbn [allChars andb].
  destruct (digitChar_decimal (r mod 10)) as [-> _]; [|reflexivity].
  apply Z.mod_pos_bound. lia.
Qed.

Lemma positional_snoc (base : Z) (p : string) (c : ascii) :
  positional base (p ++ String c "") = positional base p * base + Big.digitVal c.
Proof.
  induction p as [|c' p IH]; cbn [append positional String.length].
  - rewrite Z.pow_0_r. lia.
  - rewrite IH, length_append. cbn [String.length].
    rewrite Nat.add_1_r, Nat2Z.inj_succ, Z.pow_succ_r by lia. ring.
Qed.

Lemma positional_fixedWidth (k : nat) : forall r,
  positional 10 (fixedWidth k r) = r mod 10 ^ Z.of_nat k.
Proof.
  induction k as [|k IH]; intros r; cbn [fixedWidth].
  - now rewrite Z.mod_1_r.
  - rewrite positional_snoc, IH.
    destruct (digitChar_decimal (r mod 10)) as [_ ->];
      [apply Z.mod_pos_bound; lia|].
    rewrite Nat2Z.inj_succ, Z.pow_succ_r by lia.
    rewrite (Z.rem_mul_r r 10 (10 ^ Z.of_nat k)) by lia. ring.
Qed.

Lemma fixedWidth_zero (j : nat) : fixedWidth j 0 = repeatChar "0" j.
Proof.
  induction j as [|j IH]; [reflexivity|]. cbn [fixedWidth repeatChar].
  change (0 / 10) with 0. rewrite IH. apply repeatChar_snoc.
Qed.

Lemma fixedWidth_pad (n : nat) : forall j r,
  0 <= r < 10 ^ Z.of_nat n ->
  fixedWidth (j + n) r = repeatChar "0" j ++ fixedWidth n r.
Proof.
  induction n as [|n IH]; intros j r H.
  - cbn in H. assert (r = 0) as -> by lia.
    rewrite Nat.add_0_r, fixedWidth_zero. cbn. now rewrite append_nil_r.
  - rewrite Nat.add_succ_r. cbn [fixedWidth].
    rewrite Nat2Z.inj_succ, Z.pow_succ_r in H by lia.
    rewrite IH, append_assoc; [reflexivity|].
    split; [apply Z.div_pos; lia|]. apply Z.div_lt_upper_bound; lia.
Qed.

Lemma utoaLoop_acc (f : nat) : forall x acc,
  Big.utoaLoop f x acc = Big.utoaLoop f x "" ++ acc.
Proof.
  induction f as [|f IH]; intros x acc; cbn [Big.utoaLoop]; [reflexivity|].
  destruct (x =? 0); [reflexivity|].
  rewrite IH, (IH _ (String _ "")), append_assoc. reflexivity.
Qed.

(** With fuel for its bits, the digit loop writes a number in as many
    digits as it has. *)
Lemma utoaLoop_fixed (f : nat) : forall x,
  0 <= x < 2 ^ Z.of_nat f ->
  exists n, Big.utoaLoop f x "" = fixedWidth n x /\
            x < 10 ^ Z.of_nat n /\
            (0 < x -> (0 < n)%nat /\ 10 ^ (Z.of_nat n - 1) <= x).
Proof.
  induction f as [|f IH]; intros x H.
  - cbn in H. assert (x = 0) as -> by lia. exists O. cbn. repeat split; lia.
  - cbn [Big.utoaLoop]. destruct (Z.eqb_spec x 0) as [->|Nz].
    + exists O. cbn. repeat split; lia.
    + rewrite Nat2Z.inj_succ, Z.pow_succ_r in H by lia.
      destruct (IH (x / 10)) as (n & E & U & Lo).
      { split; [apply Z.div_pos; lia|]. apply Z.div_lt_upper_bound; lia. }
      exists (S n). rewrite utoaLoop_acc, E. cbn [fixedWidth].
      split; [reflexivity|].
      rewrite Nat2Z.inj_succ, Z.pow_succ_r by lia.
      pose proof (Z.div_mod x 10 ltac:(lia)) as DM.
      pose proof (Z.mod_pos_bound x 10 ltac:(lia)) as MB.
      split; [lia|]. intros _. split; [lia|].
      replace (Z.succ (Z.of_nat n) - 1) with (Z.of_nat n) by lia.
      destruct (Z.eq_dec (x / 10) 0) as [Q|Q].
      * assert (n = O) as ->.
        { destruct n; [reflexivity|]. rewrite Q in E. cbn [Big.utoaLoop] in E.
          destruct f; cbn in E;
            pose proof (f_equal String.length E) as LE;
            rewrite length_append in LE; cbn in LE; lia. }
        cbn. lia.
      * destruct Lo as [Pn Lo]; [pose proof (Z.div_pos x 10); lia|].
        replace (Z.of_nat n) with (Z.succ (Z.of_nat n - 1)) by lia.
        rewrite Z.pow_succ_r by lia. lia.
Qed.

Lemma utoa_fixed (x : Z) :
  0 <= x ->
  exists n, (0 < n)%nat /\ Big.utoa x = fixedWidth n x /\
            x < 10 ^ Z.of_nat n /\ 10 ^ (Z.of_nat n - 1) <= Z.max x 1.
Proof.
  intros H. unfold Big.utoa. destruct (Z.eqb_spec x 0) as [->|Nz].
  - exists 1%nat. cbn. repeat split; lia.
  - pose proof (Z.log2_spec x ltac:(lia)) as [_ Hi].
    pose proof (Z.log2_nonneg x) as Hl.
    destruct (utoaLoop_fixed (S (Z.to_nat (Z.log2 x))) x) as (n & E & U & Lo).
    { rewrite Nat2Z.inj_succ, Z2Nat.id by lia. lia. }
    destruct Lo as [Pn Lo]; [lia|].
    exists n. repeat split; try assumption. lia.
Qed.

(** A number below [10^k] has at most [k] digits, and padded to [k] it is
    the fixed-width numeral. *)
Lemma utoa_width (k : nat) (x : Z) :
  (0 < k)%nat -> 0 <= x < 10 ^ Z.of_nat k ->
  (String.length (Big.utoa x) <= k)%nat /\
  repeatChar "0" (k - String.length (Big.utoa x)) ++ Big.utoa x = fixedWidth k x.
Proof.
  intros Pk [H0 Hk]. destruct (utoa_fixed x H0) as (n & Pn & E & U & Lo).
  assert (Ln : (n <= k)%nat).
  { assert (10 ^ (Z.of_nat n - 1) < 10 ^ Z.of_nat k) as P.
    { apply Z.le_lt_trans with (Z.max x 1); [exact Lo|].
      apply Z.max_lub_lt; [exact Hk|]. apply Z.pow_gt_1; lia. }
    apply Z.pow_lt_mono_r_iff in P; lia. }
  rewrite E, length_fixedWidth. split; [exact Ln|].
  rewrite <- fixedWidth_pad by lia. f_equal. lia.
Qed.

Lemma String_nonneg (x : Z) : 0 <= x -> Big.String_ x = Big.utoa x.
Proof. intros H. unfold Big.String_. now destruct (Z.ltb_spec x 0); [lia|]. Qed.

Lemma fixedWidth_parse (k : nat) (r : Z) :
  (0 < k)%nat -> 0 <= r < 10 ^ Z.of_nat k ->
  parseNumeral 10 (fixedWidth k r) = Some r.
Proof.
  intros Pk H.
  destruct (digits_unsigned isDecimalDigit (fixedWidth k r) eq_refl eq_refl
              (fixedWidth_digits k r)) as [U Nn].
  unfold parseNumeral, isNumeral, numeralValue. rewrite U, Nn.
  rewrite (allChars_ext _ _ _ isDigitOf_10), fixedWidth_digits.
  destruct (String.eqb_spec (fixedWidth k r) "") as [E|_].
  - apply (f_equal String.length) in E. rewrite length_fixedWidth in E.
    cbn in E. lia.
  - cbn [negb andb]. now rewrite positional_fixedWidth, Z.mod_small.
Qed.

Lemma negative_minus (d : string) : negative (String "-" d) = true.
Proof. unfold negative. rewrite prefix_cons, prefix_empty. reflexivity. Qed.

(** Reading back what [String] writes gives the number. *)
Theorem SetString_String (z : Z) : Big.SetString (Big.String_ z) 10 = Some z.
Proof.
  rewrite SetString_spec. unfold Big.String_.
  destruct (Z.ltb_spec z 0) as [Neg|Pos].
  - destruct (utoa_fixed (- z) ltac:(lia)) as (n & Pn & E & U & _).
    pose proof (fixedWidth_parse n (- z) Pn ltac:(lia)) as P.
    rewrite <- E in P. revert P.
    unfold parseNumeral, isNumeral, numeralValue.
    rewrite negative_minus.
    change (unsignedPart (String "-" (Big.utoa (- z)))) with (Big.utoa (- z)).
    destruct (digits_unsigned isDecimalDigit (Big.utoa (- z)) eq_refl eq_refl)
      as [-> ->]; [rewrite E; apply fixedWidth_digits|].
    destruct (negb _ && _); [|discriminate].
    intros P. injection P as P. f_equal. lia.
  - destruct (utoa_fixed z Pos) as (n & Pn & E & U & _).
    rewrite E. apply fixedWidth_parse; [exact Pn | lia].
Qed.

(** ** The result formatter *)

Lemma Div_exp18 (v : Z) : Big.Div v exp18 = v / 10 ^ 18.
Proof. unfold Big.Div. change (Z.sgn exp18) with 1. now rewrite Z.mul_1_l. Qed.

Lemma Mod_exp18 (v : Z) : Big.Mod v exp18 = v mod 10 ^ 18.
Proof. reflexivity. Qed.

Lemma Cmp_positive (v : Z) : (Big.Cmp v 0 >? 0) = (0 <? v).
Proof.
  unfold Big.Cmp. destruct (Z.compare_spec v 0); destruct (Z.ltb_spec 0 v);
    try reflexivity; lia.
Qed.

Lemma formatResult_bigInt (w : World) (conv : bool) (i : nat) (v : Z) :
  formatResult w conv i (VBigInt v) =
  (resultHead i :: Stdout (Big.String_ v ++ " (big.Int)" ++ LF) ::
     (if conv && (0 <? v) then [Stdout (rescaleLine v)] else []), inl tt).
Proof.
  unfold formatResult. rewrite Cmp_positive.
  destruct (conv && (0 <? v)); [|reflexivity].
  unfold when. rewrite Div_exp18, Mod_exp18. cbv zeta.
  pose proof (Z.mod_pos_bound v (10 ^ 18) ltac:(lia)) as B.
  rewrite (String_nonneg (v mod 10 ^ 18)) by lia.
  rewrite padLoop_spec.
  rewrite (proj2 (utoa_width 18 (v mod 10 ^ 18) ltac:(lia) B)).
  rewrite trimLoop_spec. fold (fractionDigits v). unfold rescaleLine.
  destruct (fractionDigits v) as [|c r]; reflexivity.
Qed.

(** C2. With the rescale flag set, a result [v > 0] is followed by a second
    line: the decimal numeral of [floor(v / 10^18)], then, unless nothing
    is left of them, a point and the 18 digits of [v mod 10^18] (leading
    zeros kept) without their trailing zeros. *)
Theorem formatResult_rescale (w : World) (i : nat) (v : Z) :
  0 < v ->
  formatResult w true i (VBigInt v) =
    ([Stdout ("Result[" ++ fmt_d i ++ "]: ");
      Stdout (Big.String_ v ++ " (big.Int)" ++ LF);
      Stdout ("           = " ++ Big.String_ (v / 10 ^ 18) ++
              (if String.eqb (stripTrailingZeros (fixedWidth 18 (v mod 10 ^ 18))) ""
               then ""
               else "." ++ stripTrailingZeros (fixedWidth 18 (v mod 10 ^ 18))) ++
              " (decimal)" ++ LF)], inl tt) /\
  Big.SetString (Big.String_ (v / 10 ^ 18)) 10 = Some (v / 10 ^ 18) /\
  String.length (fixedWidth 18 (v mod 10 ^ 18)) = 18%nat /\
  Big.SetString (fixedWidth 18 (v mod 10 ^ 18)) 10 = Some (v mod 10 ^ 18).
Proof.
  intros P. rewrite formatResult_bigInt.
  destruct (Z.ltb_spec 0 v) as [_|]; [|lia]. cbn [andb].
  split; [reflexivity|]. split; [apply SetString_String|].
  split; [apply length_fixedWidth|].
  rewrite SetString_spec. apply fixedWidth_parse; [lia|].
  apply Z.mod_pos_bound. lia.
Qed.

Lemma formatResult_rescale_witness :
  formatResult offlineWorld true 0 (VBigInt 1500000000000000000) =
    ([Stdout "Result[0]: ";
      Stdout ("1500000000000000000 (big.Int)" ++ LF);
      Stdout ("           = 1.5 (decimal)" ++ LF)], inl tt).
Proof.
  exact (proj1 (formatResult_rescale offlineWorld 0 1500000000000000000 eq_refl)).
Defined.

Example rescale_whole_number :
  formatResult offlineWorld true 0 (VBigInt 1000000000000000000) =
    ([Stdout "Result[0]: ";
      Stdout ("1000000000000000000 (big.Int)" ++ LF);
      Stdout ("           = 1 (decimal)" ++ LF)], inl tt).
Proof. reflexivity. Qed.

Lemma strip_idempotent (s : string) :
  stripTrailingZeros (stripTrailingZeros s) = stripTrailingZeros s.
Proof.
  induction s as [|c s IH]; [reflexivity|]. cbn [stripTrailingZeros].
  destruct (stripTrailingZeros s) as [|c' r] eqn:E.
  - destruct (Ascii.eqb c "0") eqn:Z0; [reflexivity|].
    cbn [stripTrailingZeros]. now rewrite Z0.
  - remember (String c' r) as t. cbn [stripTrailingZeros]. rewrite IH.
    now subst t.
Qed.

Lemma fractionDigits_parts (v : Z) :
  stripTrailingZeros (fractionDigits v) = fractionDigits v /\
  (String.length (fractionDigits v) <= 18)%nat /\
  Big.SetString
    (fractionDigits v ++ repeatChar "0" (18 - String.length (fractionDigits v))) 10
    = Some (v mod 10 ^ 18).
Proof.
  unfold fractionDigits. split; [apply strip_idempotent|].
  destruct (strip_zeros (fixedWidth 18 (v mod 10 ^ 18))) as [E L].
  rewrite length_fixedWidth in E, L. split; [exact L|].
  rewrite <- E, SetString_spec. apply fixedWidth_parse; [lia|].
  apply Z.mod_pos_bound. lia.
Qed.

(** C3. The rescale line gives back what went in: for [v > 0] written as
    [intPart * 10^18 + fracPart] with [0 <= fracPart < 10^18], the numeral
    before the point reads as [intPart], and the digits after it, which
    carry no trailing zero, read as [fracPart] once the stripped zeros are
    put back to make 18 digits.  For [v <= 0] there is no second line. *)
Theorem rescale_round_trip (w : World) (i : nat) (v : Z) :
  (forall intPart fracPart,
     0 < v -> v = intPart * 10 ^ 18 + fracPart -> 0 <= fracPart < 10 ^ 18 ->
     exists I F,
       formatResult w true i (VBigInt v) =
         ([Stdout ("Result[" ++ fmt_d i ++ "]: ");
           Stdout (Big.String_ v ++ " (big.Int)" ++ LF);
           Stdout ("           = " ++ I ++
                   (if String.eqb F "" then "" else "." ++ F) ++
                   " (decimal)" ++ LF)], inl tt) /\
       Big.SetString I 10 = Some intPart /\
       stripTrailingZeros F = F /\
       (String.length F <= 18)%nat /\
       Big.SetString (F ++ repeatChar "0" (18 - String.length F)) 10
         = Some fracPart) /\
  (v <= 0 -> forall conv,
     formatResult w conv i (VBigInt v) =
       ([Stdout ("Result[" ++ fmt_d i ++ "]: ");
         Stdout (Big.String_ v ++ " (big.Int)" ++ LF)], inl tt)).
Proof.
  split.
  - intros intPart fracPart P E B.
    assert (Q : v / 10 ^ 18 = intPart)
      by (symmetry; apply (Z.div_unique v (10 ^ 18) intPart fracPart); lia).
    assert (R : v mod 10 ^ 18 = fracPart)
      by (symmetry; apply (Z.mod_unique v (10 ^ 18) intPart fracPart); lia).
    exists (Big.String_ (v / 10 ^ 18)), (fractionDigits v).
    destruct (fractionDigits_parts v) as (S1 & S2 & S3).
    rewrite formatResult_bigInt.
    destruct (Z.ltb_spec 0 v) as [_|]; [|lia]. cbn [andb].
    split; [reflexivity|]. rewrite <- Q, <- R.
    split; [apply SetString_String|]. now repeat split.
  - intros N conv. rewrite formatResult_bigInt.
    destruct (Z.ltb_spec 0 v) as [|_]; [lia|]. now rewrite andb_false_r.
Qed.

Lemma rescale_round_trip_witness :
  (exists I F,
     formatResult offlineWorld true 0 (VBigInt 1500000000000000000) =
       ([Stdout ("Result[" ++ fmt_d 0 ++ "]: ");
         Stdout (Big.String_ 1500000000000000000 ++ " (big.Int)" ++ LF);
         Stdout ("           = " ++ I ++
                 (if String.eqb F "" then "" else "." ++ F) ++
                 " (decimal)" ++ LF)], inl tt) /\
     Big.SetString I 10 = Some 1 /\
     stripTrailingZeros F = F /\
     (String.length F <= 18)%nat /\
     Big.SetString (F ++ repeatChar "0" (18 - String.length F)) 10
       = Some 500000000000000000) /\
  formatResult offlineWorld true 0 (VBigInt 0) =
    ([Stdout ("Result[" ++ fmt_d 0 ++ "]: ");
      Stdout (Big.String_ 0 ++ " (big.Int)" ++ LF)], inl tt).
Proof.
  split.
  - exact (proj1 (rescale_round_trip offlineWorld 0 1500000000000000000)
             1 500000000000000000 eq_refl eq_refl ltac:(lia)).
  - exact (proj2 (rescale_round_trip offlineWorld 0 0) ltac:(lia) true).
Defined.

Lemma formatResult_ok (w : World) (conv : bool) (i : nat) (v : Value) :
  exists body,
    formatResult w conv i v = (resultHead i :: body, inl tt) /\
    body <> [] /\
    Forall (fun e => exists text, e = Stdout text) body /\
    (forall repr typeName, v = VOther repr typeName ->
       body = [Stdout (repr ++ " (type: " ++ typeName ++ ")" ++ LF)]).
Proof.
  destruct v as [z|s|b|a|b|repr typeName];
    try (eexists; split; [reflexivity|]; split; [discriminate|];
         split; [repeat constructor; now eexists | intros ? ? [=]]).
  - rewrite formatResult_bigInt. eexists. split; [reflexivity|].
    split; [discriminate|]. split; [|intros ? ? [=]].
    destruct (conv && (0 <? z)); repeat constructor; now eexists.
  - now subst.
Qed.

Lemma formatResult_entry (w : World) (conv : bool) (i : nat) (v : Value) :
  formatResult w conv i v = (resultHead i :: entryBody w conv v, inl tt).
Proof.
  destruct v as [z|text|b|a|b|repr typeName]; try reflexivity.
  apply formatResult_bigInt.
Qed.

Lemma formatLoop_ok (w : World) (conv : bool) (results : list Value) : forall i,
  exists entries,
    formatLoop w conv i results = (List.concat entries, inl tt) /\
    List.length entries = List.length results /\
    forall j v, nth_error results j = Some v ->
      exists body,
        nth_error entries j = Some (resultHead (i + j) :: body) /\
        formatResult w conv (i + j) v = (resultHead (i + j) :: body, inl tt) /\
        body <> [] /\
        body = entryBody w conv v.
Proof.
  induction results as [|v rest IH]; intros i.
  - exists []. repeat split. intros [|j] v H; discriminate H.
  - pose proof (formatResult_entry w conv i v) as E.
    destruct (IH (S i)) as (entries & L & Len & N).
    exists ((resultHead i :: entryBody w conv v) :: entries). cbn [formatLoop].
    rewrite E, L. split; [reflexivity|]. split; [cbn; now rewrite Len|].
    intros [|j] v' H; cbn [nth_error] in *.
    + injection H as <-. rewrite Nat.add_0_r. exists (entryBody w conv v).
      repeat split; try assumption. now destruct v.
    + rewrite Nat.add_succ_r. exact (N j v' H).
Qed.

(** C7. Whatever the decoded values are, the formatter runs to its end
    without an error or a panic and writes one entry per value, in the
    order of the values.  Entry [i] opens with the index [i]; what follows
    is fixed by the type of the value: the decimal numeral of an integer
    (and its rescale line, when asked for and the integer is positive), a
    string as it is, bytes as 0x and their hex digits, an address in its
    checksummed form, [true] or [false] for a boolean, each with the name
    of its type; and a value of an unrecognised type by its generic form
    and its type name. *)
Theorem formatResults_total (w : World) (conv : bool) (results : list Value) :
  exists entries,
    formatResults w conv results = (List.concat entries, inl tt) /\
    List.length entries = List.length results /\
    forall i v, nth_error results i = Some v ->
      exists body,
        nth_error entries i
          = Some (Stdout ("Result[" ++ fmt_d i ++ "]: ") :: body) /\
        formatResult w conv i v
          = (Stdout ("Result[" ++ fmt_d i ++ "]: ") :: body, inl tt) /\
        body <> [] /\
        body =
          match v with
          | VBigInt z =>
              Stdout (Big.String_ z ++ " (big.Int)" ++ LF) ::
              (if conv && (0 <? z) then [Stdout (rescaleLine z)] else [])
          | VString text => [Stdout (text ++ " (string)" ++ LF)]
          | VBytes b => [Stdout ("0x" ++ EncodeToString b ++ " (bytes)" ++ LF)]
          | VAddress a => [Stdout (Hex w a ++ " (address)" ++ LF)]
          | VBool b =>
              [Stdout ((if b then "true" else "false") ++ " (bool)" ++ LF)]
          | VOther repr typeName =>
              [Stdout (repr ++ " (type: " ++ typeName ++ ")" ++ LF)]
          end.
Proof. exact (formatLoop_ok w conv results 0). Qed.

Lemma formatResults_total_witness :
  exists entries,
    formatResults offlineWorld true
      [VBool true; VOther "{1 2}" "struct { A int; B int }";
       VString "USD Coin"; VBytes [222; 173]; VBigInt 1500000000000000000]
      = (List.concat entries, inl tt) /\
    List.length entries = 5%nat /\
    nth_error entries 0
      = Some [Stdout "Result[0]: "; Stdout ("true (bool)" ++ LF)] /\
    nth_error entries 1
      = Some [Stdout "Result[1]: ";
              Stdout ("{1 2} (type: struct { A int; B int })" ++ LF)] /\
    nth_error entries 2
      = Some [Stdout "Result[2]: "; Stdout ("USD Coin (string)" ++ LF)] /\
    nth_error entries 3
      = Some [Stdout "Result[3]: "; Stdout ("0xdead (bytes)" ++ LF)] /\
    nth_error entries 4
      = Some [Stdout "Result[4]: ";
              Stdout ("1500000000000000000 (big.Int)" ++ LF);
              Stdout ("           = 1.5 (decimal)" ++ LF)].
Proof.
  destruct (formatResults_total offlineWorld true
              [VBool true; VOther "{1 2}" "struct { A int; B int }";
               VString "USD Coin"; VBytes [222; 173];
               VBigInt 1500000000000000000])
    as (entries & E & L & N).
  exists entries. split; [exact E|]. split; [exact L|].
  destruct (N 0%nat _ eq_refl) as (b0 & B0 & _ & _ & ->).
  destruct (N 1%nat _ eq_refl) as (b1 & B1 & _ & _ & ->).
  destruct (N 2%nat _ eq_refl) as (b2 & B2 & _ & _ & ->).
  destruct (N 3%nat _ eq_refl) as (b3 & B3 & _ & _ & ->).
  destruct (N 4%nat _ eq_refl) as (b4 & B4 & _ & _ & ->).
  repeat split; assumption.
Defined.

(** ** The ABI selector *)

(** X2. For the tag [generic] and for the empty tag the selected fragment is
    the fallback with the function name in the place of the placeholder. *)
Lemma predefinedABI_generic (name : string) :
  predefinedABI "generic" name = genericFragment name /\
  predefinedABI "" name = genericFragment name.
Proof. split; reflexivity. Qed.

Lemma predefinedABI_known :
  (forall name, predefinedABI "erc20" name = ERC20ABI) /\
  (forall name, predefinedABI "storage" name = SimpleStorageABI).
Proof. split; reflexivity. Qed.

(** Any tag beyond the four gets the fallback fragment as it is. *)
Lemma predefinedABI_other (tag name : string) :
  tag <> "erc20" -> tag <> "storage" -> tag <> "generic" -> tag <> "" ->
  predefinedABI tag name = GenericFallbackABI.
Proof.
  intros H1 H2 H3 H4. unfold predefinedABI, getContractABI.
  apply String.eqb_neq in H1, H2, H3, H4. now rewrite H1, H2, H3, H4.
Qed.

(** C5. What the code does on a tag that is none of [erc20], [storage],
    [generic] and the empty tag: the fallback fragment is selected with the
    placeholder still in it, and the requested name nowhere; the name is
    substituted for [generic] only (and for the empty tag). *)
Theorem unknown_tag_keeps_placeholder :
  predefinedABI "custom" "foo" = GenericFallbackABI /\
  Contains (predefinedABI "custom" "foo") "FUNCTION_PLACEHOLDER" = true /\
  Contains (predefinedABI "custom" "foo") "foo" = false /\
  predefinedABI "custom" "foo" <> genericFragment "foo" /\
  predefinedABI "generic" "foo" = genericFragment "foo".
Proof.
  split; [reflexivity|]. split; [vm_compute; reflexivity|].
  split; [vm_compute; reflexivity|]. split; [|reflexivity].
  intros E. apply (f_equal String.length) in E. vm_compute in E. discriminate E.
Qed.

(** ** The driver: usage errors *)

Lemma Usage_events (w : World) :
  Usage w = (fst (Usage w), inl tt) /\
  forallb onStderr (fst (Usage w)) = true /\
  fst (Usage w) <> [].
Proof. repeat split. discriminate. Qed.

(** C8, as the code has it. Without [-help], an invocation that lacks
    [-contract], lacks [-function], or gives a [-contract] value that is no
    well-formed hex address ends with status 1 before any dial or call.
    The error line goes to standard output; the usage text follows on
    standard error in the two missing-flag cases, and not for a malformed
    address. *)
Theorem usage_errors_exit_1 (w : World) (f : Flags) :
  help f = false ->
  contractAddr f = "" \/ functionName f = "" \/
    IsHexAddress (contractAddr f) = false ->
  exists msg usage,
    main w f = (Stdout msg :: usage, inr (Exit 1)) /\
    existsb isNetwork (Stdout msg :: usage) = false /\
    (contractAddr f = "" ->
       msg = "Error: Contract address is required" ++ LF /\
       usage = fst (Usage w)) /\
    (contractAddr f <> "" -> functionName f = "" ->
       msg = "Error: Function name is required" ++ LF /\
       usage = fst (Usage w)) /\
    (contractAddr f <> "" -> functionName f <> "" ->
       msg = "Error: Invalid contract address format: " ++ contractAddr f ++ LF /\
       usage = []).
Proof.
  intros Hh Bad. unfold main. rewrite Hh.
  destruct (String.eqb_spec (contractAddr f) "") as [C|C].
  - exists ("Error: Contract address is required" ++ LF), (fst (Usage w)).
    split; [reflexivity|]. split; [reflexivity|].
    split; [now intros _|]. split; intros N; now elim N.
  - destruct (String.eqb_spec (functionName f) "") as [F|F].
    + exists ("Error: Function name is required" ++ LF), (fst (Usage w)).
      split; [reflexivity|]. split; [reflexivity|].
      split; [intros E; now elim C|]. split; [now intros _ _|].
      intros _ N. now elim N.
    + destruct Bad as [E|[E|E]]; [now elim C | now elim F|].
      rewrite E.
      exists ("Error: Invalid contract address format: " ++ contractAddr f ++ LF), [].
      split; [reflexivity|]. split; [reflexivity|].
      split; [intros E'; now elim C|]. split; [intros _ E'; now elim F|].
      now intros _ _.
Qed.

Lemma usage_errors_exit_1_witness :
  exists msg usage,
    main offlineWorld
      {| contractAddr := "0x1234"; functionName := "totalSupply";
         rpcURL := "http://localhost:8545"; contractType := "erc20";
         abiFile := ""; args := ""; convert := false; help := false |}
      = (Stdout msg :: usage, inr (Exit 1)) /\
    msg = "Error: Invalid contract address format: 0x1234" ++ LF /\
    usage = [].
Proof.
  destruct (usage_errors_exit_1 offlineWorld
    {| contractAddr := "0x1234"; functionName := "totalSupply";
       rpcURL := "http://localhost:8545"; contractType := "erc20";
       abiFile := ""; args := ""; convert := false; help := false |}
    eq_refl (or_intror (or_intror eq_refl)))
    as (msg & usage & E & _ & _ & _ & A).
  exists msg, usage. split; [exact E|].
  exact (A ltac:(discriminate) ltac:(discriminate)).
Defined.

(** C8, as the specification words it, fails: on a malformed address the
    run writes nothing to standard error, no usage text either; when
    [-contract] is missing the error line is on standard output; and with
    [-help] the status is 0 whatever else is missing. *)
Lemma usage_errors_not_on_stderr :
  main offlineWorld
    {| contractAddr := "0x1234"; functionName := "totalSupply";
       rpcURL := "http://localhost:8545"; contractType := "erc20";
       abiFile := ""; args := ""; convert := false; help := false |}
    = ([Stdout ("Error: Invalid contract address format: 0x1234" ++ LF)],
       inr (Exit 1)) /\
  existsb onStderr
    [Stdout ("Error: Invalid contract address format: 0x1234" ++ LF)] = false /\
  (exists usage,
     main offlineWorld defaultFlags
       = (Stdout ("Error: Contract address is required" ++ LF) :: usage,
          inr (Exit 1)) /\
     forallb onStderr usage = true) /\
  snd (main offlineWorld
         {| contractAddr := ""; functionName := "";
            rpcURL := "http://localhost:8545"; contractType := "generic";
            abiFile := ""; args := ""; convert := false; help := true |})
    = inr (Exit 0).
Proof.
  split; [reflexivity|]. split; [reflexivity|]. split; [|reflexivity].
  eexists. split; reflexivity.
Qed.

(** Past the three checks the driver does dial. *)
Example valid_invocation_dials :
  main offlineWorld
    {| contractAddr := "0x3EF98543F9772DC959255545B717a61D408e7b61";
       functionName := "totalSupply";
       rpcURL := "http://localhost:8545"; contractType := "erc20";
       abiFile := ""; args := ""; convert := false; help := false |}
    = ([DialRPC "http://localhost:8545";
        LogLine "Failed to connect to the Ethereum client: no route to host"],
       inr (Exit 1)).
Proof. reflexivity. Qed.

(** ** The driver as a whole *)

Lemma bind_ret {A B} (a : A) (k : A -> M B) : bind (ret a) k = k a.
Proof. unfold bind, ret. now destruct (k a). Qed.

Lemma bind_nil {A B} (a : A) (k : A -> M B) : bind ([], inl a) k = k a.
Proof. exact (bind_ret a k). Qed.

Lemma bind_emit {B} (e : event) (k : unit -> M B) :
  bind (emit e) k = prefixed [e] (k tt).
Proof. reflexivity. Qed.

Lemma bind_prefixed {A B} (t : list event) (m : M A) (k : A -> M B) :
  bind (prefixed t m) k = prefixed t (bind m k).
Proof.
  destruct m as [t' [a|h]]; cbn; [|reflexivity].
  destruct (k a) as [t'' r]. cbn. now rewrite app_assoc.
Qed.

Ltac mred :=
  unfold when, Printf, Println, Fprintf_Stderr, Fatalf, CallViewFunction;
  repeat (rewrite ?bind_ret, ?bind_nil, ?bind_emit, ?bind_prefixed; cbv beta).

Lemma prepareArgs_shape (raw : string) :
  (exists a, prepareArgs raw = ([], inl a)) \/
  (exists tok, prepareArgs raw =
     ([LogLine ("Failed to parse hex argument: " ++ tok)], inr (Exit 1))).
Proof.
  unfold prepareArgs. destruct (negb (String.eqb raw "")); [|left; now eexists].
  generalize (@nil Arg) as acc.
  induction (Split raw ",") as [|arg rest IH]; intros acc; cbn [coerceLoop].
  - left. now eexists.
  - destruct (coerceArg_shape (TrimSpace arg)) as [[a E]|E]; rewrite E.
    + rewrite (bind_ret a). apply IH.
    + right. now eexists.
Qed.

Lemma formatLoop_stdout (w : World) (conv : bool) (results : list Value) :
  forall i, snd (formatLoop w conv i results) = inl tt /\
            forallb isStdout (fst (formatLoop w conv i results)) = true.
Proof.
  induction results as [|v rest IH]; intros i; [now split|].
  cbn [formatLoop].
  destruct (formatResult_ok w conv i v) as (body & E & _ & F & _).
  rewrite E. destruct (IH (S i)) as [S1 S2].
  destruct (formatLoop w conv (S i) rest) as [t r]. cbn in *. subst r.
  split; [reflexivity|]. rewrite forallb_app, S2, andb_true_r.
  clear -F. induction F as [|e l [text ->] _ IHF]; [reflexivity | exact IHF].
Qed.

Lemma formatResults_pair (w : World) (conv : bool) (results : list Value) :
  formatResults w conv results = (fst (formatResults w conv results), inl tt).
Proof.
  unfold formatResults.
  destruct (formatLoop_stdout w conv results 0) as [S1 _].
  destruct (formatLoop w conv 0 results) as [t r]. cbn in *. now subst r.
Qed.

(** Every run of [main] goes one of the ten ways of [Run]. *)
Lemma main_run (w : World) (f : Flags) :
  Run w f (fst (main w f)) (snd (main w f)).
Proof.
  unfold main.
  destruct (help f) eqn:Hh; [now apply run_help|].
  destruct (String.eqb_spec (contractAddr f) "") as [Hc|Hc];
    [now apply run_no_contract|].
  destruct (String.eqb_spec (functionName f) "") as [Hf|Hf];
    [now apply run_no_function|].
  destruct (IsHexAddress (contractAddr f)) eqn:Ha;
    [|now apply run_bad_address].
  assert (V : Valid f) by (now repeat split).
  cbn [negb]. mred.
  destruct (Dial w (rpcURL f)) as [[]|err] eqn:D; mred;
    [|now apply run_dial_failed].
  pose proof (run_read_failed w f) as R1.
  pose proof (run_abi_rejected w f) as R2.
  pose proof (run_bad_argument w f) as R3.
  pose proof (run_call_failed w f) as R4.
  pose proof (run_completed w f) as R5.
  unfold opening, chosenABI, callingLine in *.
  destruct (String.eqb_spec (abiFile f) "") as [Ea|Ea]; cbn [negb]; mred.
  - unfold NewGenericContract.
    destruct (abiJSON w (predefinedABI (contractType f) (functionName f)))
      as [[]|err] eqn:J; mred; [|now apply (R2 _ _ V D eq_refl J)].
    destruct (prepareArgs_shape (args f)) as [[a P]|[tok P]]; rewrite P;
      [|now apply (R3 _ _ V D eq_refl J P)].
    mred. cbn [contract abi].
    match goal with
    | |- context [Call w ?x ?y ?z a] =>
        destruct (Call w x y z a) as [results|err] eqn:C
    end; mred.
    + rewrite (formatResults_pair w (convert f) results).
      apply (R5 _ _ _ V D eq_refl J P C).
    + now apply (R4 _ _ _ V D eq_refl J P C).
  - destruct (ReadFile w (abiFile f)) as [abiString|err] eqn:Rd; mred;
      [|now apply (R1 _ V D Ea eq_refl)].
    unfold NewGenericContract.
    destruct (abiJSON w abiString) as [[]|err] eqn:J; mred;
      [|now apply (R2 _ _ V D eq_refl J)].
    destruct (prepareArgs_shape (args f)) as [[a P]|[tok P]]; rewrite P;
      [|now apply (R3 _ _ V D eq_refl J P)].
    mred. cbn [contract abi].
    match goal with
    | |- context [Call w ?x ?y ?z a] =>
        destruct (Call w x y z a) as [results|err] eqn:C
    end; mred.
    + rewrite (formatResults_pair w (convert f) results).
      apply (R5 _ _ _ V D eq_refl J P C).
    + now apply (R4 _ _ _ V D eq_refl J P C).
Qed.

Lemma stdout_only (t : list event) :
  forallb isStdout t = true ->
  filter isDial t = [] /\ filter isCall t = [] /\ existsb onStderr t = false /\
  forall e, In e t -> exists text, e = Stdout text.
Proof.
  induction t as [|e t IH]; intros H; [now repeat split|].
  cbn [forallb] in H. apply andb_prop in H. destruct H as [He Ht].
  destruct (IH Ht) as (I1 & I2 & I3 & I4).
  destruct e; try discriminate He. cbn. repeat split; try assumption.
  intros e [<-|Hin]; [now eexists | now apply I4].
Qed.

Lemma formatResults_stdout (w : World) (conv : bool) (results : list Value) :
  forallb isStdout (fst (formatResults w conv results)) = true.
Proof. apply formatLoop_stdout. Qed.

Lemma opening_events (w : World) (f : Flags) :
  exists rest, opening w f = DialRPC (rpcURL f) :: rest /\
    filter isDial rest = [] /\ filter isCall rest = [] /\
    existsb onStderr rest = false /\
    (forall to m a, ~ In (EthCall to m a) rest) /\
    forall p, In (FileRead p) rest -> p = abiFile f /\ abiFile f <> "".
Proof.
  unfold opening. destruct (String.eqb_spec (abiFile f) "") as [E|E];
    eexists; (split; [reflexivity|]); cbn;
    (split; [reflexivity|]); (split; [reflexivity|]); (split; [reflexivity|]);
    split.
  - intros to m a [H|[H|[]]]; discriminate H.
  - intros p [H|[H|[]]]; discriminate H.
  - intros to m a [H|[H|[H|[]]]]; discriminate H.
  - intros p [H|[H|[H|[]]]]; try discriminate H.
    injection H as <-. now split.
Qed.

Ltac split_in H :=
  first
    [ apply in_app_or in H; destruct H as [H|H]; [split_in H | split_in H]
    | match type of H with
      | In _ (_ :: _) =>
          destruct H as [H|H]; [try discriminate H | split_in H]
      | In _ [] => contradiction
      end
    | idtac ].

Ltac run_cases w f :=
  let R := fresh "R" in
  pose proof (main_run w f) as R;
  destruct R as
    [ Hh | Hh Hc | Hh Hc Hf | Hh Hc Hf Ha
    | err V D | err V D Ea Rd | abiString err V D Ch J
    | abiString tok V D Ch J P | abiString a err V D Ch J P C
    | abiString a results V D Ch J P C ];
  try (destruct V as (Hh & Hc & Hf & Ha)).

(** X12. Once [flag.Parse] has returned, with the flags it has parsed:
    what follows in [main] ends with status 0 exactly when the [-help] flag
    is set, and then has written the usage text and nothing else; otherwise
    it returns or ends with status 1, and it never panics.  (An exit that
    [flag.Parse] takes by itself, on a command line it rejects, comes
    before and is not part of this.) *)
Theorem main_exit_status (w : World) (f : Flags) :
  (snd (main w f) = inr (Exit 0) <-> help f = true) /\
  snd (main w f) <> inr Panic /\
  (forall status, snd (main w f) = inr (Exit status) -> status = 0 \/ status = 1) /\
  (help f = true -> fst (main w f) = fst (Usage w)).
Proof.
  run_cases w f; repeat split; intros; try congruence;
    try (match goal with H : inr _ = inr _ |- _ => injection H as <- end; auto).
Qed.

(** X13. A run returns normally exactly when every step succeeded: the
    flags pass the checks, the dial succeeds, the ABI string is there (read
    from the file when [-abi] is given) and parses, every argument is
    coerced, and the call returns. *)
Theorem main_completes_iff (w : World) (f : Flags) :
  snd (main w f) = inl tt <->
  Valid f /\ Dial w (rpcURL f) = Ok tt /\
  exists abiString a results,
    chosenABI w f = Ok abiString /\ abiJSON w abiString = Ok tt /\
    prepareArgs (args f) = ([], inl a) /\
    Call w (HexToAddress (contractAddr f)) abiString (functionName f) a
      = Ok results.
Proof.
  run_cases w f; (split; [intros E; try discriminate E|]).
  all: try (intros ((Hh' & Hc' & Hf' & Ha') & D' & abi' & a' & res' & Ch' & J' & P' & C');
            congruence).
  - intros (_ & _ & abi' & a' & res' & Ch' & _). unfold chosenABI in Ch'.
    destruct (String.eqb_spec (abiFile f) ""); congruence.
  - repeat split; try assumption. now exists abiString, a, results.
Qed.

Lemma Usage_quiet (w : World) :
  filter isDial (fst (Usage w)) = [] /\ filter isCall (fst (Usage w)) = [] /\
  forall e, In e (fst (Usage w)) -> exists text, e = Stderr text.
Proof.
  repeat split. cbn. intros e H.
  repeat (destruct H as [<-|H]; [now eexists|]). contradiction.
Qed.

(** X14. A run dials at most once and calls the contract at most once,
    and a run that calls has begun with the dial. *)
Theorem main_one_request (w : World) (f : Flags) :
  (List.length (filter isDial (fst (main w f))) <= 1)%nat /\
  (List.length (filter isCall (fst (main w f))) <= 1)%nat /\
  (forall to method a, In (EthCall to method a) (fst (main w f)) ->
     exists rest, fst (main w f) = DialRPC (rpcURL f) :: rest).
Proof.
  pose proof (opening_events w f) as (rest & O & O1 & O2 & _).
  pose proof (Usage_quiet w) as (U1 & U2 & U3).
  assert (F1 : forall res,
             filter isDial (fst (formatResults w (convert f) res)) = [])
    by (intros res; apply stdout_only, formatResults_stdout).
  assert (F2 : forall res,
             filter isCall (fst (formatResults w (convert f) res)) = [])
    by (intros res; apply stdout_only, formatResults_stdout).
  run_cases w f; unfold callingLine; rewrite ?O; cbn [app];
    repeat (progress (rewrite ?filter_app, ?U1, ?U2, ?O1, ?O2, ?F1, ?F2;
                      cbn [filter isDial isCall app List.length]));
    (split; [|split]); try lia; try (intros; now eexists).
  all: intros to method a0 H; exfalso;
    repeat (destruct H as [H|H]; [discriminate H|]);
    try (apply U3 in H; destruct H as [? H]; discriminate H);
    try contradiction.
Qed.

(** X15. When a run calls the contract, the flags passed the checks and
    the dial succeeded; the call goes to the address of [-contract], names
    the function of [-function], and carries the coerced arguments of
    [-args]; and the ABI string had been accepted by the parser. *)
Theorem main_call (w : World) (f : Flags) (to : Address) (method : string)
    (given : list Arg) :
  In (EthCall to method given) (fst (main w f)) ->
  Valid f /\ Dial w (rpcURL f) = Ok tt /\
  to = HexToAddress (contractAddr f) /\ method = functionName f /\
  prepareArgs (args f) = ([], inl given) /\
  exists abiString, chosenABI w f = Ok abiString /\ abiJSON w abiString = Ok tt.
Proof.
  pose proof (opening_events w f) as (rest & O & _ & _ & _ & O3 & _).
  pose proof (Usage_quiet w) as (_ & _ & U3).
  assert (NoCall : forall l : list event, l = rest \/ l = fst (Usage w) \/
            (exists res, l = fst (formatResults w (convert f) res)) ->
            ~ In (EthCall to method given) l).
  { intros l [->|[->|[res ->]]] H.
    - now apply O3 in H.
    - apply U3 in H. destruct H as [? H]. discriminate H.
    - destruct (stdout_only _ (formatResults_stdout w (convert f) res))
        as (_ & _ & _ & F).
      apply F in H. destruct H as [? H]. discriminate H. }
  run_cases w f; unfold callingLine; rewrite ?O; cbn [app]; intros H;
    split_in H;
    try (exfalso; revert H; apply NoCall; eauto; fail).
  all: injection H as <- <- <-; unfold Valid;
    repeat split; try assumption; exists abiString; now split.
Qed.

(** X16. A file is read only when [-abi] names one, only that file, and
    only after the checks and a successful dial. *)
Theorem main_file_read (w : World) (f : Flags) (path : string) :
  In (FileRead path) (fst (main w f)) ->
  path = abiFile f /\ abiFile f <> "" /\ Valid f /\ Dial w (rpcURL f) = Ok tt.
Proof.
  pose proof (opening_events w f) as (rest & O & _ & _ & _ & _ & O4).
  pose proof (Usage_quiet w) as (_ & _ & U3).
  assert (NoRead : forall l : list event, l = fst (Usage w) \/
            (exists res, l = fst (formatResults w (convert f) res)) ->
            ~ In (FileRead path) l).
  { intros l [->|[res ->]] H.
    - apply U3 in H. destruct H as [? H]. discriminate H.
    - destruct (stdout_only _ (formatResults_stdout w (convert f) res))
        as (_ & _ & _ & F).
      apply F in H. destruct H as [? H]. discriminate H. }
  run_cases w f; unfold callingLine; rewrite ?O; cbn [app]; intros H;
    split_in H;
    try (exfalso; revert H; apply NoRead; eauto; fail).
  all: destruct (O4 _ H) as [-> N]; unfold Valid; now repeat split.
Qed.

(** X17. With [-abi] given, [-type] plays no part: the run is the same
    whatever the tag. *)
Theorem abi_file_overrides_type (w : World) (f : Flags) (tag : string) :
  abiFile f <> "" -> main w (withType f tag) = main w f.
Proof.
  intros N. unfold main. cbn [withType help contractAddr functionName rpcURL
    contractType abiFile args convert].
  apply String.eqb_neq in N. rewrite N. reflexivity.
Qed.

(** X18. When the dial fails the run ends there, with one line for the
    logger and status 1: nothing is connected, read, parsed or called. *)
Theorem main_dial_failure (w : World) (f : Flags) (reason : string) :
  Valid f -> Dial w (rpcURL f) = Err reason ->
  main w f =
    ([DialRPC (rpcURL f);
      LogLine ("Failed to connect to the Ethereum client: " ++ reason)],
     inr (Exit 1)).
Proof.
  intros (Hh' & Hc' & Hf' & Ha') D'.
  rewrite (surjective_pairing (main w f)).
  run_cases w f; congruence.
Qed.

(** X19. What a run that succeeds at every step writes and does, in
    order: the dial, the two lines about the node and the address, the file
    read if there is one, the line with the number of arguments, the call,
    the line of success, and the entries of the formatter. *)
Theorem main_completed_trace (w : World) (f : Flags)
    (abiString : string) (a : list Arg) (results : list Value) :
  Valid f -> Dial w (rpcURL f) = Ok tt ->
  chosenABI w f = Ok abiString -> abiJSON w abiString = Ok tt ->
  prepareArgs (args f) = ([], inl a) ->
  Call w (HexToAddress (contractAddr f)) abiString (functionName f) a
    = Ok results ->
  main w f =
    ((opening w f ++
      [Stdout ("Calling function '" ++ functionName f ++ "' with "
               ++ fmt_d (List.length a) ++ " arguments" ++ LF);
       EthCall (HexToAddress (contractAddr f)) (functionName f) a;
       Stdout ("Function returned successfully!" ++ LF)] ++
      fst (formatResults w (convert f) results))%list, inl tt).
Proof.
  intros (Hh' & Hc' & Hf' & Ha') D' Ch' J' P' C'.
  rewrite (surjective_pairing (main w f)).
  pose proof (main_run w f) as R.
  destruct R as [ | | | | | ? ? ? Ea Rd | | |
                | abi0 a0 res0 V0 D0 Ch0 J0 P0 C0 ]; try congruence.
  - unfold chosenABI in Ch'.
    destruct (String.eqb_spec (abiFile f) ""); congruence.
  - assert (abi0 = abiString) by congruence. subst abi0.
    assert (a0 = a) by congruence. subst a0.
    assert (res0 = results) by congruence. subst res0. reflexivity.
Qed.

(** X20. Past the checks, a run either returns without a word on
    standard error, or ends with status 1 and one diagnostic, written last. *)
Theorem main_one_diagnostic (w : World) (f : Flags) :
  Valid f ->
  (snd (main w f) = inl tt /\ existsb onStderr (fst (main w f)) = false) \/
  (snd (main w f) = inr (Exit 1) /\
   exists before msg, fst (main w f) = (before ++ [LogLine msg])%list /\
                      existsb onStderr before = false).
Proof.
  intros (Hh' & Hc' & Hf' & Ha').
  pose proof (opening_events w f) as (rest & O & _ & _ & O3 & _).
  assert (Q : existsb onStderr (opening w f) = false)
    by (rewrite O; cbn [existsb onStderr orb]; exact O3).
  run_cases w f; try congruence.
  - right. split; [reflexivity|]. exists [DialRPC (rpcURL f)]. now eexists.
  - right. split; [reflexivity|]. exists (opening w f). now eexists.
  - right. split; [reflexivity|]. exists (opening w f). now eexists.
  - right. split; [reflexivity|]. exists (opening w f). now eexists.
  - right. split; [reflexivity|].
    exists (opening w f ++ [callingLine f a;
              EthCall (HexToAddress (contractAddr f)) (functionName f) a])%list.
    eexists. split; [now rewrite <- app_assoc|].
    rewrite existsb_app, Q. reflexivity.
  - left. split; [reflexivity|]. rewrite !existsb_app, Q.
    cbn [existsb onStderr callingLine orb].
    now destruct (stdout_only _ (formatResults_stdout w (convert f) results))
      as (_ & _ & -> & _).
Qed.

Lemma Valid_demoFlags : Valid demoFlags.
Proof. repeat split; discriminate. Qed.

Lemma Valid_abiFileFlags : Valid abiFileFlags.
Proof. repeat split; discriminate. Qed.

Lemma main_exit_status_witness :
  snd (main offlineWorld (withType defaultFlags "erc20")) = inr (Exit 1) /\
  snd (main offlineWorld
         {| contractAddr := ""; functionName := ""; rpcURL := "";
            contractType := ""; abiFile := ""; args := ""; convert := false;
            help := true |}) = inr (Exit 0).
Proof.
  split; [reflexivity|].
  exact (proj2 (proj1 (main_exit_status offlineWorld
           {| contractAddr := ""; functionName := ""; rpcURL := "";
              contractType := ""; abiFile := ""; args := ""; convert := false;
              help := true |})) eq_refl).
Defined.

Lemma main_completes_iff_witness : snd (main demoWorld demoFlags) = inl tt.
Proof.
  apply (proj2 (main_completes_iff demoWorld demoFlags)).
  split; [exact Valid_demoFlags|]. split; [reflexivity|].
  exists ERC20ABI, [], [VBigInt 1500000000000000000]. now repeat split.
Defined.

Lemma main_one_request_witness :
  (List.length (filter isDial (fst (main demoWorld demoFlags))) <= 1)%nat /\
  (List.length (filter isCall (fst (main demoWorld demoFlags))) <= 1)%nat.
Proof.
  destruct (main_one_request demoWorld demoFlags) as (D & C & _).
  split; [exact D | exact C].
Defined.

Lemma main_call_witness :
  Valid demoFlags /\ Dial demoWorld (rpcURL demoFlags) = Ok tt /\
  HexToAddress "0x3EF98543F9772DC959255545B717a61D408e7b61"
    = HexToAddress (contractAddr demoFlags) /\
  "totalSupply" = functionName demoFlags /\
  prepareArgs (args demoFlags) = ([], inl []) /\
  exists abiString,
    chosenABI demoWorld demoFlags = Ok abiString /\
    abiJSON demoWorld abiString = Ok tt.
Proof.
  apply (main_call demoWorld demoFlags).
  vm_compute. do 4 right. left. reflexivity.
Defined.

Lemma main_file_read_witness :
  "abi.json" = abiFile abiFileFlags /\ abiFile abiFileFlags <> "" /\
  Valid abiFileFlags /\ Dial demoWorld (rpcURL abiFileFlags) = Ok tt.
Proof.
  apply (main_file_read demoWorld abiFileFlags).
  vm_compute. do 3 right. left. reflexivity.
Defined.

Lemma abi_file_overrides_type_witness :
  main demoWorld (withType abiFileFlags "storage") = main demoWorld abiFileFlags.
Proof.
  apply (abi_file_overrides_type demoWorld abiFileFlags "storage").
  discriminate.
Defined.

Lemma main_dial_failure_witness :
  main offlineWorld demoFlags =
    ([DialRPC "http://localhost:8545";
      LogLine "Failed to connect to the Ethereum client: no route to host"],
     inr (Exit 1)).
Proof.
  exact (main_dial_failure offlineWorld demoFlags "no route to host"
           Valid_demoFlags eq_refl).
Defined.

Lemma main_completed_trace_witness :
  main demoWorld demoFlags =
    ((opening demoWorld demoFlags ++
      [Stdout ("Calling function 'totalSupply' with 0 arguments" ++ LF);
       EthCall (HexToAddress (contractAddr demoFlags)) "totalSupply" [];
       Stdout ("Function returned successfully!" ++ LF)] ++
      [Stdout "Result[0]: ";
       Stdout ("1500000000000000000 (big.Int)" ++ LF);
       Stdout ("           = 1.5 (decimal)" ++ LF)])%list, inl tt).
Proof.
  exact (main_completed_trace demoWorld demoFlags ERC20ABI []
           [VBigInt 1500000000000000000]
           Valid_demoFlags eq_refl eq_refl eq_refl eq_refl eq_refl).
Defined.

Lemma main_one_diagnostic_witness :
  (snd (main demoWorld demoFlags) = inl tt /\
   existsb onStderr (fst (main demoWorld demoFlags)) = false) \/
  (snd (main demoWorld demoFlags) = inr (Exit 1) /\
   exists before msg,
     fst (main demoWorld demoFlags) = (before ++ [LogLine msg])%list /\
     existsb onStderr before = false).
Proof. exact (main_one_diagnostic demoWorld demoFlags Valid_demoFlags). Defined.

(** ** More about the helpers and the coercer *)

(** X1. [stringInSlice] tells whether the string is one of those in the
    list. *)
Theorem stringInSlice_In (str : string) (list : list string) :
  stringInSlice str list = true <-> In str list.
Proof.
  induction list as [|v rest IH]; cbn [stringInSlice In].
  - split; [discriminate | contradiction].
  - destruct (String.eqb_spec v str) as [E|N].
    + split; [now left | reflexivity].
    + rewrite IH. split; [now right | now intros [E|H]].
Qed.

(** X3. The hex test looks for the lower-case prefix only: a token that
    starts with 0X and is no well-formed address is passed on as a string,
    hex digits or not. *)
Theorem upper_prefix_is_string (tok : string) :
  HasPrefix tok "0X" = true -> ~ WellFormedAddress tok ->
  coerceArg tok = ([], inl (ArgString tok)).
Proof.
  intros P N. rewrite coerceArg_unfold, (IsHexAddress_false _ N).
  unfold HasPrefix in *. destruct tok as [|c0 [|c1 r]]; [discriminate P| |].
  { rewrite prefix_cons in P. cbn [String.prefix] in P.
    rewrite andb_false_r in P. discriminate P. }
  rewrite !prefix_cons in P. apply andb_prop in P. destruct P as [P0 P1].
  apply andb_prop in P1. destruct P1 as [P1 _].
  apply Ascii.eqb_eq in P0, P1. subst c0 c1.
  rewrite !prefix_cons. cbn [Ascii.eqb Bool.eqb andb].
  reflexivity.
Qed.

Lemma upper_prefix_is_string_witness :
  coerceArg "0X1F" = ([], inl (ArgString "0X1F")).
Proof.
  apply (upper_prefix_is_string "0X1F" eq_refl).
  intros W. apply IsHexAddress_spec in W. discriminate W.
Defined.

(** X4. Behind the 0x prefix a sign is read as well: 0x- and hex digits
    give the negated value, 0x+ and hex digits the value. *)
Theorem signed_hex_token (d : string) :
  d <> "" -> allChars isHexDigit d = true ->
  coerceArg ("0x-" ++ d) = ([], inl (ArgInt (- positional 16 d))) /\
  coerceArg ("0x+" ++ d) = ([], inl (ArgInt (positional 16 d))).
Proof.
  intros Ne H.
  assert (A : forall sign : ascii, isHexCharacter sign = false ->
              IsHexAddress (String "0" (String "x" (String sign d))) = false).
  { intros sign Hs. unfold IsHexAddress, isHex. cbn [has0xPrefix Ascii.eqb Bool.eqb andb orb drop].
    cbn [allChars]. rewrite Hs. cbn [andb].
    destruct (negb _); apply andb_false_r. }
  assert (V : allChars (isDigitOf 16) d = true)
    by (now rewrite (allChars_ext _ _ _ isDigitOf_16)).
  assert (E : negb (String.eqb d "") = true)
    by (destruct (String.eqb_spec d ""); [now elim Ne | reflexivity]).
  split; rewrite coerceArg_unfold; cbn [append]; rewrite A by reflexivity.
  - change (HasPrefix (String "0" (String "x" (String "-" d))) "0x") with
      (String.prefix "" (String "-" d)).
    cbn [String.prefix drop]. unfold parseNumeral, isNumeral, numeralValue.
    rewrite negative_minus.
    change (unsignedPart (String "-" d)) with d. now rewrite E, V.
  - change (HasPrefix (String "0" (String "x" (String "+" d))) "0x") with
      (String.prefix "" (String "+" d)).
    cbn [String.prefix drop]. unfold parseNumeral, isNumeral, numeralValue.
    change (unsignedPart (String "+" d)) with d.
    change (negative (String "+" d)) with false. now rewrite E, V.
Qed.

Lemma signed_hex_token_witness :
  coerceArg "0x-ff" = ([], inl (ArgInt (-255))) /\
  coerceArg "0x+ff" = ([], inl (ArgInt 255)).
Proof. exact (signed_hex_token "ff" ltac:(discriminate) eq_refl). Defined.

Lemma String_signedDecimal (z : Z) : isSignedDecimal (Big.String_ z) = true.
Proof.
  unfold isSignedDecimal, Big.String_.
  assert (U : forall x, 0 <= x ->
            negb (String.eqb (Big.utoa x) "") = true /\
            allChars isDecimalDigit (Big.utoa x) = true).
  { intros x Hx. destruct (utoa_fixed x Hx) as (n & Pn & E & _).
    rewrite E. split; [|apply fixedWidth_digits].
    destruct (String.eqb_spec (fixedWidth n x) "") as [E0|_]; [|reflexivity].
    apply (f_equal String.length) in E0. rewrite length_fixedWidth in E0.
    cbn in E0. lia. }
  destruct (Z.ltb_spec z 0) as [Neg|Pos].
  - change (unsignedPart (String "-" (Big.utoa (- z)))) with (Big.utoa (- z)).
    destruct (U (- z) ltac:(lia)) as [-> ->]. reflexivity.
  - destruct (U z Pos) as [U1 U2].
    destruct (digits_unsigned isDecimalDigit _ eq_refl eq_refl U2) as [-> _].
    now rewrite U1, U2.
Qed.

Lemma decimal_no_0X (s : string) :
  isSignedDecimal s = true -> has0xPrefix s = false.
Proof.
  unfold isSignedDecimal. intros H. apply andb_prop in H. destruct H as [_ H].
  destruct s as [|c0 [|c1 r]]; try reflexivity. cbn [has0xPrefix].
  destruct (Ascii.eqb_spec c0 "0") as [->|_]; [|reflexivity].
  destruct (Ascii.eqb_spec c1 "x") as [->|_]; [cbn in H; discriminate H|].
  destruct (Ascii.eqb_spec c1 "X") as [->|_]; [cbn in H; discriminate H|].
  reflexivity.
Qed.

(** X5. What [String] writes for an integer, the coercer reads back as
    that integer; only a non-negative numeral of exactly 40 digits is left
    out (the address test takes it). *)
Theorem coerceArg_String (z : Z) :
  z < 0 \/ String.length (Big.String_ z) <> 40%nat ->
  coerceArg (Big.String_ z) = ([], inl (ArgInt z)).
Proof.
  intros H. pose proof (String_signedDecimal z) as D.
  assert (A : IsHexAddress (Big.String_ z) = false).
  { destruct H as [Neg|L].
    - apply IsHexAddress_false, negative_not_address.
      unfold Big.String_. destruct (Z.ltb_spec z 0); [|lia].
      apply negative_minus.
    - unfold IsHexAddress. rewrite (decimal_no_0X _ D).
      apply Nat.eqb_neq in L. unfold AddressLength.
      change (2 * 20)%nat with 40%nat. now rewrite L. }
  rewrite coerceArg_unfold, A, (signedDecimal_no_0x _ D).
  now rewrite <- SetString_spec, SetString_String.
Qed.

Lemma coerceArg_String_witness :
  coerceArg (Big.String_ (-1500000000000000000))
    = ([], inl (ArgInt (-1500000000000000000))).
Proof. exact (coerceArg_String (-1500000000000000000) (or_introl eq_refl)). Defined.

Lemma fromHexChar_lower : forall c,
  isHexDigit c = true ->
  fromHexChar (lowerChar c) = fromHexChar c /\ isHexDigit (lowerChar c) = true.
Proof. by_bytes. Qed.

Lemma Hex2Bytes_lower (n : nat) : forall d,
  String.length d = (2 * n)%nat -> allChars isHexDigit d = true ->
  Hex2Bytes (lower d) = Hex2Bytes d.
Proof.
  induction n as [|n IH]; intros d L H.
  - now destruct d.
  - destruct d as [|p [|q r]]; cbn [String.length] in L; try lia.
    cbn [allChars] in H. apply andb_prop in H. destruct H as [Hp H].
    apply andb_prop in H. destruct H as [Hq Hr].
    cbn [lower Hex2Bytes].
    rewrite (proj1 (fromHexChar_lower p Hp)), (proj1 (fromHexChar_lower q Hq)).
    now rewrite (IH r ltac:(lia) Hr).
Qed.

Lemma addressDigits_wf (s : string) :
  WellFormedAddress s ->
  String.length (addressDigits s) = 40%nat /\
  allChars isHexDigit (addressDigits s) = true.
Proof.
  intros W. rewrite addressDigits_has0xPrefix.
  destruct W as [d L H|d L H|d L H].
  - now rewrite (hexDigits_no_prefix _ H).
  - change (has0xPrefix ("0x" ++ d)) with true. now cbn [append drop].
  - change (has0xPrefix ("0X" ++ d)) with true. now cbn [append drop].
Qed.

Lemma HexToAddress_digits (s : string) :
  WellFormedAddress s -> HexToAddress s = Hex2Bytes (addressDigits s).
Proof.
  intros W. destruct (addressDigits_wf s W) as [L H].
  destruct (Hex2Bytes_digits 20 _ L H) as (_ & Ln & _).
  unfold HexToAddress, FromHex, BytesToAddress. cbv zeta.
  rewrite <- addressDigits_has0xPrefix, L.
  change (Nat.eqb (Nat.modulo 40 2) 1) with false. cbv iota.
  rewrite Ln. change (Nat.ltb AddressLength 20) with false. cbv iota.
  rewrite Ln. reflexivity.
Qed.

(** X6. Case and prefix of an address token do not matter: two well-formed
    tokens with the same canonical form are coerced to the same address. *)
Theorem address_case_and_prefix (s t : string) :
  WellFormedAddress s -> WellFormedAddress t -> canonical s = canonical t ->
  coerceArg s = coerceArg t /\
  coerceArg s = ([], inl (ArgAddress (HexToAddress s))).
Proof.
  intros Ws Wt C.
  destruct (addressDigits_wf s Ws) as [Ls Hs].
  destruct (addressDigits_wf t Wt) as [Lt Ht].
  assert (E : HexToAddress s = HexToAddress t).
  { rewrite !HexToAddress_digits by assumption.
    rewrite <- (Hex2Bytes_lower 20 _ Ls Hs), <- (Hex2Bytes_lower 20 _ Lt Ht).
    unfold canonical in C. cbn [append] in C. now injection C as ->. }
  unfold coerceArg.
  rewrite (proj2 (IsHexAddress_spec s) Ws), (proj2 (IsHexAddress_spec t) Wt).
  now rewrite E.
Qed.

Lemma address_case_and_prefix_witness :
  coerceArg "0X3EF98543F9772DC959255545B717A61D408E7B61"
    = coerceArg "3ef98543f9772dc959255545b717a61d408e7b61".
Proof.
  apply (address_case_and_prefix
           "0X3EF98543F9772DC959255545B717A61D408E7B61"
           "3ef98543f9772dc959255545b717a61d408e7b61").
  - apply (wfa_0X "3EF98543F9772DC959255545B717A61D408E7B61"); reflexivity.
  - apply wfa_bare; reflexivity.
  - reflexivity.
Defined.

Lemma coerceLoop_halts (argsList : list string) : forall acc t h,
  coerceLoop argsList acc = (t, inr h) ->
  exists before tok after,
    argsList = (before ++ tok :: after)%list /\
    Forall (fun s => exists a, coerceArg (TrimSpace s) = ([], inl a)) before /\
    coerceArg (TrimSpace tok) = (t, inr h) /\
    t = [LogLine ("Failed to parse hex argument: " ++ TrimSpace tok)] /\
    h = Exit 1.
Proof.
  induction argsList as [|arg rest IH]; intros acc t h H; cbn [coerceLoop] in H.
  - discriminate H.
  - destruct (coerceArg_shape (TrimSpace arg)) as [[a E]|E]; rewrite E in H.
    + rewrite (bind_nil a) in H.
      destruct (IH _ _ _ H) as (before & tok & after & -> & F & B & T & Hh).
      exists (arg :: before), tok, after. repeat split; try assumption.
      constructor; [now exists a | exact F].
    + cbn in H. injection H as <- <-.
      exists [], arg, rest. repeat split; try assumption. constructor.
Qed.

(** X7. When coercion ends the run it does so at the first token that
    cannot be coerced: the tokens before it were all coerced, the token
    starts with 0x, the diagnostic names it as trimmed, and the status is
    1. *)
Theorem prepareArgs_first_bad_token (raw : string) (t : list event) (h : halt) :
  prepareArgs raw = (t, inr h) ->
  exists before tok after,
    Split raw "," = (before ++ tok :: after)%list /\
    Forall (fun s => exists a, coerceArg (TrimSpace s) = ([], inl a)) before /\
    HasPrefix (TrimSpace tok) "0x" = true /\
    t = [LogLine ("Failed to parse hex argument: " ++ TrimSpace tok)] /\
    h = Exit 1.
Proof.
  unfold prepareArgs. destruct (negb (String.eqb raw "")); [|discriminate].
  intros H. destruct (coerceLoop_halts _ _ _ _ H)
    as (before & tok & after & S & F & B & T & Hh).
  exists before, tok, after. repeat split; try assumption.
  destruct (HasPrefix (TrimSpace tok) "0x") eqn:P; [reflexivity|].
  revert B. unfold coerceArg. rewrite P.
  destruct (IsHexAddress _); [discriminate|].
  destruct (Big.SetString _ 10); discriminate.
Qed.

Lemma prepareArgs_first_bad_token_witness :
  exists before tok after,
    Split "7, 0xzz ,0xyy" "," = (before ++ tok :: after)%list /\
    Forall (fun s => exists a, coerceArg (TrimSpace s) = ([], inl a)) before /\
    HasPrefix (TrimSpace tok) "0x" = true /\
    [LogLine "Failed to parse hex argument: 0xzz"]
      = [LogLine ("Failed to parse hex argument: " ++ TrimSpace tok)] /\
    Exit 1 = Exit 1.
Proof.
  exact (prepareArgs_first_bad_token "7, 0xzz ,0xyy"
           [LogLine "Failed to parse hex argument: 0xzz"] (Exit 1) eq_refl).
Defined.

(** X8. The pieces [Split] gives, joined by the separator, are the string
    again, and no piece holds a separator. *)
Theorem Split_join (s : string) (sep : ascii) :
  String.concat (String sep "") (Split s sep) = s /\
  Forall (fun piece => countChar sep piece = O) (Split s sep).
Proof.
  induction s as [|c s [IH F]]; [split; [reflexivity | repeat constructor]|].
  pose proof (Split_length s sep) as SL.
  cbn [Split]. destruct (Split s sep) as [|p rest] eqn:E; [discriminate SL|].
  destruct (Ascii.eqb_spec c sep) as [->|N].
  - split; [|now constructor].
    cbn [String.concat append] in *. now rewrite IH.
  - split.
    + destruct rest as [|q rest]; cbn [String.concat append] in *; now rewrite IH.
    + inversion F as [|? ? Fp Fr]; subst. constructor; [|exact Fr].
      cbn [countChar]. destruct (Ascii.eqb_spec c sep); [now elim N | exact Fp].
Qed.

(** ** More about the formatter *)

Lemma formatResult_flag (w : World) (conv : bool) (i : nat) (v : Value) :
  (forall z, v = VBigInt z -> z <= 0) ->
  formatResult w conv i v = formatResult w false i v.
Proof.
  intros H. destruct v as [z| | | | |]; try reflexivity.
  rewrite !formatResult_bigInt. specialize (H z eq_refl).
  destruct (Z.ltb_spec 0 z); [lia|]. now rewrite andb_false_r.
Qed.

(** X9. The rescale flag changes nothing unless some result is a positive
    integer. *)
Theorem convert_only_positive_integers (w : World) (results : list Value) :
  Forall (fun v => forall z, v = VBigInt z -> z <= 0) results ->
  forall conv, formatResults w conv results = formatResults w false results.
Proof.
  intros F conv. unfold formatResults. generalize 0%nat as i.
  induction F as [|v rest Hv _ IH]; intros i; [reflexivity|].
  cbn [formatLoop]. now rewrite (formatResult_flag w conv i v Hv), IH.
Qed.

Lemma convert_only_positive_integers_witness :
  formatResults offlineWorld true [VString "USDC"; VBigInt 0; VBool true]
    = formatResults offlineWorld false [VString "USDC"; VBigInt 0; VBool true].
Proof.
  apply (convert_only_positive_integers offlineWorld
           [VString "USDC"; VBigInt 0; VBool true]).
  repeat constructor; intros z E; try discriminate E.
  injection E as <-. lia.
Defined.

Lemma strip_all_zeros (n : nat) : stripTrailingZeros (repeatChar "0" n) = "".
Proof. induction n as [|n IH]; [reflexivity|]. cbn. now rewrite IH. Qed.

Lemma fractionDigits_empty (v : Z) :
  fractionDigits v = "" <-> v mod 10 ^ 18 = 0.
Proof.
  unfold fractionDigits. split.
  - intros E.
    destruct (strip_zeros (fixedWidth 18 (v mod 10 ^ 18))) as [S _].
    rewrite E, length_fixedWidth in S. cbn [append String.length Nat.sub] in S.
    rewrite <- (fixedWidth_zero 18) in S.
    apply (f_equal (positional 10)) in S.
    rewrite !positional_fixedWidth in S.
    rewrite Z.mod_mod in S by lia. exact S.
  - intros ->. rewrite fixedWidth_zero. apply strip_all_zeros.
Qed.

(** X10. For [v > 0] the rescale line has a point exactly when [v] is no
    multiple of 10^18, and then between 1 and 18 digits follow it. *)
Theorem rescale_line_point (w : World) (i : nat) (v : Z) :
  0 < v ->
  (v mod 10 ^ 18 = 0 ->
     formatResult w true i (VBigInt v) =
       ([Stdout ("Result[" ++ fmt_d i ++ "]: ");
         Stdout (Big.String_ v ++ " (big.Int)" ++ LF);
         Stdout ("           = " ++ Big.String_ (v / 10 ^ 18)
                 ++ " (decimal)" ++ LF)], inl tt)) /\
  (v mod 10 ^ 18 <> 0 ->
     exists digit digits,
       formatResult w true i (VBigInt v) =
         ([Stdout ("Result[" ++ fmt_d i ++ "]: ");
           Stdout (Big.String_ v ++ " (big.Int)" ++ LF);
           Stdout ("           = " ++ Big.String_ (v / 10 ^ 18) ++ "."
                   ++ String digit digits ++ " (decimal)" ++ LF)], inl tt) /\
       (String.length (String digit digits) <= 18)%nat).
Proof.
  intros P. rewrite formatResult_bigInt.
  destruct (Z.ltb_spec 0 v) as [_|]; [|lia]. cbn [andb]. unfold rescaleLine.
  pose proof (fractionDigits_empty v) as E.
  pose proof (fractionDigits_parts v) as (_ & L & _).
  destruct (fractionDigits v) as [|digit digits].
  - split; [reflexivity|]. intros N. elim N. now apply E.
  - split; [intros Z0; apply E in Z0; discriminate Z0|].
    intros _. exists digit, digits. now split.
Qed.

Lemma rescale_line_point_witness :
  formatResult offlineWorld true 0 (VBigInt 2000000000000000000) =
    ([Stdout "Result[0]: ";
      Stdout ("2000000000000000000 (big.Int)" ++ LF);
      Stdout ("           = 2 (decimal)" ++ LF)], inl tt).
Proof.
  exact (proj1 (rescale_line_point offlineWorld 0 2000000000000000000 eq_refl)
           eq_refl).
Defined.

Lemma byte_nibbles (b : Z) :
  0 <= b < 256 ->
  fromHexChar (hextable (Z.shiftr b 4)) = Z.shiftr b 4 /\
  fromHexChar (hextable (Z.land b 15)) = Z.land b 15 /\
  Z.shiftr b 4 <= 15 /\ Z.land b 15 <= 15 /\
  Z.lor (Z.shiftl (Z.shiftr b 4) 4) (Z.land b 15) = b.
Proof.
  intros H.
  assert (C : forallb (fun b =>
                (fromHexChar (hextable (Z.shiftr b 4)) =? Z.shiftr b 4) &&
                (fromHexChar (hextable (Z.land b 15)) =? Z.land b 15) &&
                (Z.shiftr b 4 <=? 15) && (Z.land b 15 <=? 15) &&
                (Z.lor (Z.shiftl (Z.shiftr b 4) 4) (Z.land b 15) =? b))
                (map Z.of_nat (seq 0 256)) = true)
    by (vm_compute; reflexivity).
  rewrite forallb_forall in C.
  assert (I : In b (map Z.of_nat (seq 0 256))).
  { rewrite <- (Z2Nat.id b) by lia. apply in_map, in_seq. lia. }
  specialize (C b I). rewrite !andb_true_iff in C.
  destruct C as [[[[C1 C2] C3] C4] C5].
  apply Z.eqb_eq in C1, C2, C5. apply Z.leb_le in C3, C4. now repeat split.
Qed.

Lemma Hex2Bytes_EncodeToString (b : list Z) :
  Forall (fun v => 0 <= v < 256) b ->
  Hex2Bytes (EncodeToString b) = b /\
  String.length (EncodeToString b) = (2 * List.length b)%nat.
Proof.
  induction 1 as [|v r Hv _ [IH L]]; [now split|].
  destruct (byte_nibbles v Hv) as (E1 & E2 & R1 & R2 & E3).
  cbn [EncodeToString Hex2Bytes String.length List.length].
  rewrite E1, E2.
  destruct (Z.gtb_spec (Z.shiftr v 4) 15); [lia|].
  destruct (Z.gtb_spec (Z.land v 15) 15); [lia|].
  rewrite E3, IH, L. split; [reflexivity | lia].
Qed.

(** X11. A byte-slice result is written as 0x and two hex digits for each
    byte, and that text decodes to the same bytes. *)
Theorem bytes_entry_reads_back (w : World) (conv : bool) (i : nat) (b : list Z) :
  Forall (fun v => 0 <= v < 256) b ->
  formatResult w conv i (VBytes b) =
    ([Stdout ("Result[" ++ fmt_d i ++ "]: ");
      Stdout ("0x" ++ EncodeToString b ++ " (bytes)" ++ LF)], inl tt) /\
  String.length (EncodeToString b) = (2 * List.length b)%nat /\
  FromHex ("0x" ++ EncodeToString b) = b.
Proof.
  intros F. destruct (Hex2Bytes_EncodeToString b F) as [R L].
  split; [reflexivity|]. split; [exact L|].
  unfold FromHex. change (has0xPrefix ("0x" ++ EncodeToString b)) with true.
  cbv iota zeta. change (drop 2 ("0x" ++ EncodeToString b)) with (EncodeToString b).
  rewrite L, Nat.mul_comm, Nat.Div0.mod_mul. exact R.
Qed.

Lemma bytes_entry_reads_back_witness :
  FromHex ("0x" ++ EncodeToString [222; 173; 190; 239]) = [222; 173; 190; 239].
Proof.
  refine (proj2 (proj2 (bytes_entry_reads_back offlineWorld false 0
                          [222; 173; 190; 239] _))).
  repeat constructor; lia.
Defined.

(** ** White space as Unicode has it *)

Lemma length_substring_prefix (i : nat) : forall s,
  (i <= String.length s)%nat -> String.length (substring 0 i s) = i.
Proof.
  induction i as [|i IH]; intros s H; destruct s as [|c s]; cbn in *;
    try reflexivity; try lia.
  now rewrite IH by lia.
Qed.

(** A rune taken off a string that is not empty is one to four bytes wide. *)
Lemma DecodeRuneInString_size (s : string) :
  s <> "" ->
  (1 <= snd (Utf8.DecodeRuneInString s) <= 4)%nat.
Proof.
  destruct s as [|c0 r]; [now intros N|]. intros _.
  unfold Utf8.DecodeRuneInString. destruct (Utf8.first (code c0));
    cbn [snd]; try lia.
  repeat match goal with
         | |- context [if ?b then _ else _] => destruct b
         end; cbn [snd]; lia.
Qed.

Lemma stepBack_le (n : nat) : forall start lim s,
  Utf8.stepBack n start lim s <= start.
Proof.
  induction n as [|n IH]; intros start lim s; cbn [Utf8.stepBack]; [lia|].
  destruct (start >=? lim); [|lia].
  destruct (Utf8.RuneStart _); [lia|].
  specialize (IH (start - 1) lim s). lia.
Qed.

Lemma DecodeLastRuneInString_size (s : string) :
  s <> "" -> (1 <= snd (Utf8.DecodeLastRuneInString s))%nat.
Proof.
  intros N. unfold Utf8.DecodeLastRuneInString. cbv zeta.
  destruct (Nat.eqb_spec (String.length s) 0) as [E|E];
    [destruct s; [now elim N | discriminate E]|].
  destruct (_ <? Utf8.RuneSelf); [cbn; lia|].
  pose proof (stepBack_le Utf8.UTFMax (Z.of_nat (String.length s) - 2)
                (Z.max (Z.of_nat (String.length s) - Z.of_nat Utf8.UTFMax) 0) s)
    as B.
  destruct (Utf8.DecodeRuneInString _) as [r size].
  destruct (Nat.eqb_spec
              (Z.to_nat
                 (if Utf8.stepBack Utf8.UTFMax (Z.of_nat (String.length s) - 2)
                       (Z.max (Z.of_nat (String.length s)
                               - Z.of_nat Utf8.UTFMax) 0) s <? 0
                  then 0
                  else Utf8.stepBack Utf8.UTFMax
                         (Z.of_nat (String.length s) - 2)
                         (Z.max (Z.of_nat (String.length s)
                                 - Z.of_nat Utf8.UTFMax) 0) s) + size)
              (String.length s)) as [Q|Q]; cbn [negb snd]; [|lia].
  destruct (Z.ltb_spec
              (Utf8.stepBack Utf8.UTFMax (Z.of_nat (String.length s) - 2)
                 (Z.max (Z.of_nat (String.length s) - Z.of_nat Utf8.UTFMax) 0) s)
              0); lia.
Qed.

(** The loop of [lastIndexFunc] never runs out of rounds: with at least
    [i] of them the answer is the same, however many there are. *)
Lemma lastIndexFuncFrom_fuel (f : Z -> bool) (truth : bool) (s : string) :
  forall fuel fuel' i,
    (i <= fuel)%nat -> (i <= fuel')%nat -> (i <= String.length s)%nat ->
    lastIndexFuncFrom f truth fuel i s = lastIndexFuncFrom f truth fuel' i s.
Proof.
  induction fuel as [|k IH]; intros fuel' i H H' L.
  - assert (i = O) as -> by lia. now destruct fuel'.
  - destruct fuel' as [|k']; [assert (i = O) as -> by lia; reflexivity|].
    cbn [lastIndexFuncFrom]. destruct (Nat.eqb_spec i 0) as [|Nz]; [reflexivity|].
    assert (Ne : substring 0 i s <> "").
    { intros E. apply (f_equal String.length) in E.
      rewrite length_substring_prefix in E by exact L. cbn in E. lia. }
    pose proof (DecodeLastRuneInString_size _ Ne) as Sz.
    destruct (Utf8.DecodeLastRuneInString (substring 0 i s)) as [r size].
    cbn [snd] in Sz. destruct (Bool.eqb (f r) truth); [reflexivity|].
    apply IH; lia.
Qed.

(** Tokens with white space that is not ASCII around them: a no-break
    space (U+00A0, the bytes C2 A0) is trimmed like a blank. *)
Example no_break_space_is_trimmed :
  TrimSpace (String "194" (String "160" "42")) = "42" /\
  prepareArgs (String "194" (String "160" "42")) = ([], inl [ArgInt 42]) /\
  prepareArgs ("1," ++ String "194" (String "160" ",2"))
    = ([], inl [ArgInt 1; ArgString ""; ArgInt 2]) /\
  prepareArgs (String "194" (String "160" "0xzz"))
    = ([LogLine "Failed to parse hex argument: 0xzz"], inr (Exit 1)) /\
  prepareArgs ("0x1F" ++ String "194" (String "160" ""))
    = ([], inl [ArgInt 31]).
Proof. repeat split. Qed.

(** U+2003 (E2 80 83), U+3000 (E3 80 80) and U+0085 (C2 85) are white
    space too; U+200B (E2 80 8B) is not, and a byte that is no valid
    encoding is kept. *)
Example unicode_white_space :
  TrimSpace (" " ++ String "226" (String "128" (String "131" " a b "))
                 ++ String "227" (String "128" (String "128" ""))
                 ++ String "194" (String "133" "  ")) = "a b" /\
  TrimSpace (String "226" (String "128" (String "139" "x")))
    = String "226" (String "128" (String "139" "x")) /\
  TrimSpace (" " ++ String "160" " ") = String "160" "".
Proof. repeat split. Qed.
